(** * PhotonHBT: photon pairing for HBT correlations

    Shallow embedding of [PWGEM/PhotonMeson/Tasks/PhotonHBT.cxx].

    Conventions of the embedding.
    - Event columns that the task compares against constants ([posZ]) are
      rationals: every finite [float] is a rational and the comparisons of
      the source are exact on them; [abs] and [nabs] are the absolute value.
    - The kinematic block works over the real numbers: the ROOT GenVector
      classes are read by their mathematical meaning (a four-vector is its
      Cartesian components, [PtEtaPhiMVector] is a constructor), rounding,
      infinities and NaN are not modelled.  The division by [k12.P()] is
      partial in the embedding, and a pair whose values are undefined is
      filled with [None]; a checked copy of the block makes its square roots
      partial as well and is proved equal to the block.
    - A table is the list of its rows, each row carrying its global index;
      filtering and slicing keep the global indices, as the iterators of the
      framework do.
    - Filling a histogram appends to a trace; the traces are returned by the
      pairing functions, in the order the source fills. *)

From Stdlib Require Import String ZArith QArith Qabs Bool Lia Arith.
From Stdlib Require Import Reals Lra Psatz.
From Stdlib Require Import List Sorted Permutation.
Import ListNotations.

(* ================================================================= *)
(** ** The kinematic block (lines 235-248, repeated at 259-272 and 331-344) *)

Module Kinematics.
Local Open Scope R_scope.

(** [ROOT::Math::LorentzVector], by its Cartesian components. *)
Record LorentzVector : Type := mkLV { Px : R; Py : R; Pz : R; E : R }.

(** [ROOT::Math::XYZVector]. *)
Record XYZVector : Type := mkXYZ { X : R; Y : R; Z : R }.

(** [ROOT::Math::PtEtaPhiMVector v(pt, eta, phi, m)]: the momentum is
    [(pt cos phi, pt sin phi, pt sinh eta)], its magnitude [pt cosh eta],
    and the energy [sqrt (P^2 + m^2)].  This is the class at a transverse
    momentum [pt > 0].  For [pt <= 0] the library decodes the longitudinal
    component and the magnitude by a convention of its own, which is not
    modelled: the closed forms proved below for the values that depend on
    these two take [pt > 0]. *)
Definition PtEtaPhiMVector (pt eta phi m : R) : LorentzVector :=
  {| Px := pt * cos phi;
     Py := pt * sin phi;
     Pz := pt * sinh eta;
     E := sqrt ((pt * cosh eta) * (pt * cosh eta) + m * m) |}.

(** [v1 - v2], [v1 + v2] and [a * v], componentwise. *)
Definition lv_minus (v1 v2 : LorentzVector) : LorentzVector :=
  mkLV (Px v1 - Px v2) (Py v1 - Py v2) (Pz v1 - Pz v2) (E v1 - E v2).

Definition lv_plus (v1 v2 : LorentzVector) : LorentzVector :=
  mkLV (Px v1 + Px v2) (Py v1 + Py v2) (Pz v1 + Pz v2) (E v1 + E v2).

Definition lv_scale (a : R) (v : LorentzVector) : LorentzVector :=
  mkLV (a * Px v) (a * Py v) (a * Pz v) (a * E v).

(** [M2()], and [M()] with ROOT's convention for a space-like vector:
    [M2 >= 0 ? sqrt(M2) : -sqrt(-M2)].  The test is on the exact [M2]: where
    [M2] is zero over the reals, rounding decides the branch that the
    floating-point code takes, so nothing is stated about the sign of [M()]
    there. *)
Definition M2 (v : LorentzVector) : R :=
  E v * E v - Px v * Px v - Py v * Py v - Pz v * Pz v.

Definition M (v : LorentzVector) : R :=
  if Rle_dec 0 (M2 v) then sqrt (M2 v) else - sqrt (- M2 v).

(** [Pt()], [P()] and [Vect()]. *)
Definition Pt (v : LorentzVector) : R := sqrt (Px v * Px v + Py v * Py v).

Definition P (v : LorentzVector) : R :=
  sqrt (Px v * Px v + Py v * Py v + Pz v * Pz v).

Definition Vect (v : LorentzVector) : XYZVector := mkXYZ (Px v) (Py v) (Pz v).

(** [a.Dot(b)] and [a.Cross(b)]. *)
Definition Dot (a b : XYZVector) : R := X a * X b + Y a * Y b + Z a * Z b.

Definition Cross (a b : XYZVector) : XYZVector :=
  mkXYZ (Y a * Z b - Z a * Y b) (Z a * X b - X a * Z b) (X a * Y b - Y a * X b).

(** [v / a]: the only partial operation of the block. *)
Definition xyz_div (v : XYZVector) (a : R) : option XYZVector :=
  if Req_EM_T a 0 then None else Some (mkXYZ (X v / a) (Y v / a) (Z v / a)).

(** [double values[5] = {qinv, qlong, qout, qside, kt}]. *)
Record Values : Type :=
  mkValues { qinv : R; qlong : R; qout : R; qside : R; kt : R }.

(** The five values with the signs of [qlong], [qout] and [qside] flipped. *)
Definition swapped (v : Values) : Values :=
  mkValues (qinv v) (- qlong v) (- qout v) (- qside v) (kt v).

(** The half-sum [k12 = 0.5 * (v1 + v2)] of the two massless vectors. *)
Definition k12 (pt1 eta1 phi1 pt2 eta2 phi2 : R) : LorentzVector :=
  lv_scale (1 / 2)
    (lv_plus (PtEtaPhiMVector pt1 eta1 phi1 0) (PtEtaPhiMVector pt2 eta2 phi2 0)).

(** The difference [q12 = v1 - v2]. *)
Definition q12 (pt1 eta1 phi1 pt2 eta2 phi2 : R) : LorentzVector :=
  lv_minus (PtEtaPhiMVector pt1 eta1 phi1 0) (PtEtaPhiMVector pt2 eta2 phi2 0).

(** The block itself, from the two candidates' [(pt, eta, phi)] to the five
    values that are filled.  [None] is the division by a zero [k12.P()]. *)
Definition KinematicTransform (pt1 eta1 phi1 pt2 eta2 phi2 : R) : option Values :=
  let q := q12 pt1 eta1 phi1 pt2 eta2 phi2 in
  let k := k12 pt1 eta1 phi1 pt2 eta2 phi2 in
  let qinv := - M q in
  let kt := Pt k in
  let q_3d := Vect q in
  match xyz_div (Vect k) (P k) with
  | None => None
  | Some uv_out =>
      let uv_long := mkXYZ 0 0 1 in
      let uv_side := Cross uv_out uv_long in
      let qout := Dot q_3d uv_out in
      let qlong := Dot q_3d uv_long in
      let qside := Dot q_3d uv_side in
      Some (mkValues qinv qlong qout qside kt)
  end.







End Kinematics.

(* ================================================================= *)
(** ** Data model *)

(** [enum PairType] (lines 55-62) and [pairnames] (line 115). *)
Inductive PairType : Type :=
  | kPCMPCM | kPHOSPHOS | kEMCEMC | kPCMPHOS | kPCMEMC | kPHOSEMC.

Definition pairnames (pairtype : PairType) : string :=
  match pairtype with
  | kPCMPCM => "PCMPCM"
  | kPHOSPHOS => "PHOSPHOS"
  | kEMCEMC => "EMCEMC"
  | kPCMPHOS => "PCMPHOS"
  | kPCMEMC => "PCMEMC"
  | kPHOSEMC => "PHOSEMC"
  end%string.

(** The test [pairtype == kPCMPCM || pairtype == kPHOSPHOS || pairtype == kEMCEMC]
    of lines 228 and 325. *)
Definition same_subsystem (pairtype : PairType) : bool :=
  match pairtype with
  | kPCMPCM | kPHOSPHOS | kEMCEMC => true
  | _ => false
  end.

Definition PairType_eqb (a b : PairType) : bool :=
  match a, b with
  | kPCMPCM, kPCMPCM | kPHOSPHOS, kPHOSPHOS | kEMCEMC, kEMCEMC
  | kPCMPHOS, kPCMPHOS | kPCMEMC, kPCMEMC | kPHOSEMC, kPHOSEMC => true
  | _, _ => false
  end.

(** A row of [aod::EMReducedEvents], with the columns the task reads. *)
Record Collision : Type := mkCollision {
  collisionId : Z;
  posZ : Q;
  numContrib : Z;
  sel8 : bool;
  isPHOSCPVreadout : bool;
  multNTracksPV : Z;
  ngpcm : Z;
  ngphos : Z;
  ngemc : Z
}.

(** What the pairing templates ask of a candidate row ([TG1], [TG2]): the
    event it belongs to and its [(pt, eta, phi)]. *)
Class Candidate (G : Type) : Type := {
  photonCollisionId : G -> Z;
  pt : G -> R;
  eta : G -> R;
  phi : G -> R
}.

(** What they ask of a cut ([V0PhotonCut], [PHOSPhotonCut]): [GetName()] and
    [IsSelected(g)]. *)
Record Cut (G : Type) : Type := mkCut {
  GetName : string;
  IsSelected : G -> bool
}.
Arguments mkCut {G} _ _.
Arguments GetName {G} _.
Arguments IsSelected {G} _ _.

(** A table: its rows with their global indices. *)
Definition Table (A : Type) : Type := list (nat * A).

Definition asTable {A : Type} (rows : list A) : Table A :=
  combine (seq 0 (length rows)) rows.

(** [soa::Filtered]: the rows that satisfy the filter, indices kept. *)
Definition Filtered {A : Type} (f : A -> bool) (t : Table A) : Table A :=
  filter (fun r => f (snd r)) t.

(** [table.sliceBy(perCollision, id)]: the rows of the event [id]. *)
Definition sliceBy {A : Type} (key : A -> Z) (id : Z) (t : Table A) : Table A :=
  filter (fun r => Z.eqb (key (snd r)) id) t.

(** One call of [Fill]: on a [TH1F] with a value, or on a [THnSparseF] with
    the five values of a candidate pair.  The path is the chain of
    [FindObject] names; the two candidates of a pair fill are kept with it. *)
Inductive Fill (G : Type) : Type :=
  | Fill1D (path : list string) (x : Q)
  | FillND (path : list string) (g1 g2 : nat * G) (values : option Kinematics.Values).
Arguments Fill1D {G} _ _.
Arguments FillND {G} _ _ _ _.

Definition Qlt_bool (x y : Q) : bool := negb (Qle_bool y x).

(* ================================================================= *)
(** ** Combination policies of the framework *)

(** Modelled from the spec: [CombinationsStrictlyUpperIndexPolicy] of the
    framework (ASoAHelpers.h is not under src/): "strictly-upper-triangular
    index pairs (i<j)".  The first index stops one row before the end of the
    first table. *)
Fixpoint CombinationsStrictlyUpperIndexPolicy {A B : Type}
    (t1 : list A) (t2 : list B) : list (A * B) :=
  match t1, t2 with
  | a :: ((_ :: _) as r1), _ :: r2 =>
      map (pair a) r2 ++ CombinationsStrictlyUpperIndexPolicy r1 r2
  | _, _ => []
  end.

(** Modelled from the spec: [CombinationsFullIndexPolicy], "the full
    cross-product of indices between the two sliced lists", the second index
    running fastest. *)
Definition CombinationsFullIndexPolicy {A B : Type}
    (t1 : list A) (t2 : list B) : list (A * B) :=
  flat_map (fun a => map (pair a) t2) t1.

(** [BinningIndex::operator<]: by bin, then by row index. *)
Definition binning_lt {A : Type} (x y : Z * (nat * A)) : bool :=
  (fst x <? fst y)%Z || ((fst x =? fst y)%Z && (fst (snd x) <? fst (snd y))%nat).

Fixpoint insert_binned {A : Type} (x : Z * (nat * A)) (l : list (Z * (nat * A)))
    : list (Z * (nat * A)) :=
  match l with
  | [] => [x]
  | y :: r => if binning_lt y x then y :: insert_binned x r else x :: l
  end.

(** Modelled from the spec: [groupTable], which tags every row with its
    mixing bin, drops the rows of the bin [outsider] and sorts the rest
    stably, so that the rows of one bin are consecutive. *)
Definition groupTable {A : Type} (getBin : A -> Z) (outsider : Z) (t : Table A)
    : list (Z * (nat * A)) :=
  fold_right insert_binned []
    (filter (fun x => negb (fst x =? outsider)%Z)
       (map (fun r => (getBin (snd r), r)) t)).

Fixpoint takeWhile {A : Type} (f : A -> bool) (l : list A) : list A :=
  match l with
  | [] => []
  | x :: r => if f x then x :: takeWhile f r else []
  end.

(** The partners of an anchor: the rows that follow it in its bin, at most
    [categoryNeighbours] of them. *)
Definition partners {A : Type} (categoryNeighbours : nat) (bin : Z)
    (rest : list (Z * (nat * A))) : list (nat * A) :=
  map snd (takeWhile (fun x => (fst x =? bin)%Z) (firstn categoryNeighbours rest)).

Fixpoint block_strictly_upper {A : Type} (categoryNeighbours : nat)
    (grouped : list (Z * (nat * A))) : list ((nat * A) * (nat * A)) :=
  match grouped with
  | [] => []
  | (bin, a) :: rest =>
      map (pair a) (partners categoryNeighbours bin rest)
        ++ block_strictly_upper categoryNeighbours rest
  end.

(** Modelled from the spec: [soa::selfCombinations(binning, categoryNeighbours,
    outsider, table, table)]: "event pairs strictly within the same bin using
    a strict-upper-triangular event-index policy over the bin's event pool",
    anchor by anchor. *)
Definition selfCombinations {A : Type} (getBin : A -> Z)
    (categoryNeighbours : nat) (outsider : Z) (t : Table A)
    : list ((nat * A) * (nat * A)) :=
  block_strictly_upper categoryNeighbours (groupTable getBin outsider t).

(** Modelled from the spec: [ColumnBinningPolicy::getBin] on variable-width
    edges with overflows ignored (the [true] of line 285): the number of
    edges not above the value, minus one; [None] outside the edges. *)
Fixpoint edges_below (edges : list Q) (v : Q) : nat :=
  match edges with
  | [] => 0
  | e :: r => if Qle_bool e v then S (edges_below r v) else 0
  end.

Definition axis_bin (edges : list Q) (v : Q) : option nat :=
  let n := edges_below edges v in
  if (n =? 0)%nat || (n =? length edges)%nat then None else Some (n - 1)%nat.

(** The bin of a collision under
    [ColumnBinningPolicy<aod::collision::PosZ, aod::mult::MultNTracksPV>]
    (line 284); [-1] is the bin of an ignored row. *)
Definition ColumnBinningPolicy_getBin (vtxBins multBins : list Q) (c : Collision) : Z :=
  match axis_bin vtxBins (posZ c),
        axis_bin multBins (inject_Z (multNTracksPV c)) with
  | Some i, Some j => Z.of_nat (i + j * (length vtxBins - 1))
  | _, _ => (-1)%Z
  end.

(* ================================================================= *)
(** ** Histogram lists (lines 95-148) *)

Local Open Scope string_scope.

(** A [THashList] and what it holds: named objects, themselves lists or
    histograms (a histogram holds nothing). *)
#[warnings="-register-all"]
Inductive TObject : Type :=
  | THashList (name : string) (objs : list TObject).

Definition TObject_name (o : TObject) : string :=
  match o with THashList n _ => n end.

Definition TObject_objs (o : TObject) : list TObject :=
  match o with THashList _ l => l end.

(** [list->FindObject(name)]: the first object of that name, if any. *)
Definition FindObject (lst : TObject) (name : string) : option TObject :=
  find (fun o => String.eqb (TObject_name o) name) (TObject_objs lst).

(** Modelled from the spec: [emphotonhistograms::AddHistClass] of
    HistogramsLibrary (not under src/): a new, empty list of the given name is
    added to [list]; "buckets are created once", a name already present is
    not added again. *)
Definition AddHistClass (lst : TObject) (histClass : string) : TObject :=
  match FindObject lst histClass with
  | Some _ => lst
  | None => THashList (TObject_name lst) (TObject_objs lst ++ [THashList histClass []])%list
  end.

(** Modelled from the spec: [emphotonhistograms::DefineHistograms] of
    HistogramsLibrary (not under src/), by the histograms the task looks up
    afterwards: the three event histograms, the two pair histograms. *)
Definition DefineHistograms (lst : TObject) (histClass : string) : TObject :=
  let hist n := THashList n [] in
  if String.eqb histClass "Event" then
    THashList (TObject_name lst)
      (TObject_objs lst ++ [hist "hZvtx_before"; hist "hZvtx_after"; hist "hCollisionCounter"])%list
  else if String.eqb histClass "photon_hbt" then
    THashList (TObject_name lst) (TObject_objs lst ++ [hist "hs_q_same"; hist "hs_q_mix"])%list
  else lst.

(** The source changes a sublist through the pointer that [FindObject]
    returned: here the first object of that name is replaced by its image.
    (Without such an object the source would follow a null pointer; here the
    list is left as it is.  [addhistograms] adds the object first.) *)
Fixpoint update_first (name : string) (f : TObject -> TObject) (objs : list TObject)
    : list TObject :=
  match objs with
  | [] => []
  | o :: r => if String.eqb (TObject_name o) name then f o :: r
              else o :: update_first name f r
  end.

Definition update_object (lst : TObject) (name : string) (f : TObject -> TObject)
    : TObject :=
  THashList (TObject_name lst) (update_first name f (TObject_objs lst)).

(** The body of the two loops of [add_pair_histograms] (lines 100-110). *)
Definition add_pair_histograms_body {G1 G2 : Type} (pairname : string)
    (cut1 : Cut G1) (cut2 : Cut G2) (list_pair : TObject) : TObject :=
  let cutname1 := GetName cut1 in
  let cutname2 := GetName cut2 in
  if (String.eqb pairname "PCMPCM" || String.eqb pairname "PHOSPHOS"
      || String.eqb pairname "EMCEMC")
     && negb (String.eqb cutname1 cutname2)
  then list_pair
  else
    let pair_cut_name := (cutname1 ++ "_" ++ cutname2)%string in
    update_object list_pair pairname (fun list_pair_subsys =>
      update_object (AddHistClass list_pair_subsys pair_cut_name) pair_cut_name
        (fun list_pair_subsys_cut => DefineHistograms list_pair_subsys_cut "photon_hbt")).

(** [add_pair_histograms] (lines 96-113): [cut1] outside, [cut2] inside. *)
Definition add_pair_histograms {G1 G2 : Type} (list_pair : TObject) (pairname : string)
    (cuts1 : list (Cut G1)) (cuts2 : list (Cut G2)) : TObject :=
  fold_left
    (fun lp cut1 =>
       fold_left (fun lp' cut2 => add_pair_histograms_body pairname cut1 cut2 lp')
         cuts2 lp)
    cuts1 list_pair.

(** The names of the buckets of a pair type: the objects of
    [list_pair->FindObject(pairname)]. *)
Definition buckets (list_pair : TObject) (pairname : string) : list string :=
  match FindObject list_pair pairname with
  | Some sub => map TObject_name (TObject_objs sub)
  | None => []
  end.

(** The body of the loop of [addhistograms] over [fPairNames] (lines 128-147),
    on the lists [Event] and [Pair]. *)
Definition addhistograms_body {G : Type} (fPCMCuts fPHOSCuts : list (Cut G))
    (lists : TObject * TObject) (pairname : string) : TObject * TObject :=
  let '(list_ev, list_pair) := lists in
  let list_ev := AddHistClass list_ev pairname in
  let list_ev := update_object list_ev pairname
                   (fun list_ev_pair => DefineHistograms list_ev_pair "Event") in
  let list_pair := AddHistClass list_pair pairname in
  let list_pair :=
    if String.eqb pairname "PCMPCM"
    then add_pair_histograms list_pair pairname fPCMCuts fPCMCuts else list_pair in
  let list_pair :=
    if String.eqb pairname "PHOSPHOS"
    then add_pair_histograms list_pair pairname fPHOSCuts fPHOSCuts else list_pair in
  let list_pair :=
    if String.eqb pairname "PCMPHOS"
    then add_pair_histograms list_pair pairname fPCMCuts fPHOSCuts else list_pair in
  (list_ev, list_pair).

(** [addhistograms] (lines 116-148): [fMainList] after it. *)
Definition addhistograms {G : Type} (fPairNames : list string)
    (fPCMCuts fPHOSCuts : list (Cut G)) : TObject :=
  let '(list_ev, list_pair) :=
    fold_left (addhistograms_body fPCMCuts fPHOSCuts) fPairNames
      (THashList "Event" [], THashList "Pair" []) in
  THashList "fMainList" [list_ev; list_pair].

(** The names pushed by [init] (lines 77-85). *)
Definition init_fPairNames (processPCMPCM processPHOSPHOS processPCMPHOS : bool)
    : list string :=
  ((if processPCMPCM then ["PCMPCM"] else [])
   ++ (if processPHOSPHOS then ["PHOSPHOS"] else [])
   ++ (if processPCMPHOS then ["PCMPHOS"] else []))%list.

(** [fMainList] after [init] (lines 75-93), for the process flags and
    the cuts that [DefinePCMCuts] and [DefinePHOSCuts] resolved. *)
Definition init_fMainList {G : Type}
    (processPCMPCM processPHOSPHOS processPCMPHOS : bool)
    (fPCMCuts fPHOSCuts : list (Cut G)) : TObject :=
  addhistograms (init_fPairNames processPCMPCM processPHOSPHOS processPCMPHOS)
    fPCMCuts fPHOSCuts.

(* ================================================================= *)
(** ** Pair selection and pairing (lines 177-352) *)

Section Pairing.

Context {G : Type} `{Candidate G}.

(** [IsSelectedPair<pairtype>(g1, g2, cut1, cut2)] (lines 177-195). *)
Definition IsSelectedPair (pairtype : PairType) (g1 g2 : nat * G)
    (cut1 cut2 : Cut G) : bool :=
  match pairtype with
  | kPCMPCM => IsSelected cut1 (snd g1) && IsSelected cut2 (snd g2)
  | kPHOSPHOS => IsSelected cut1 (snd g1) && IsSelected cut2 (snd g2)
  | kPCMPHOS => IsSelected cut1 (snd g1) && IsSelected cut2 (snd g2)
  | _ => true
  end.

(** The values filled for a candidate pair. *)
Definition pair_values (g1 g2 : nat * G) : option Kinematics.Values :=
  Kinematics.KinematicTransform
    (pt (snd g1)) (eta (snd g1)) (phi (snd g1))
    (pt (snd g2)) (eta (snd g2)) (phi (snd g2)).

(** [fMainList->FindObject("Event")->FindObject(pairnames[pairtype])->FindObject(h)]. *)
Definition event_hist (pairtype : PairType) (h : string) : list string :=
  ["Event"; pairnames pairtype; h].

(** [fMainList->FindObject("Pair")->FindObject(pairnames[pairtype])
      ->FindObject(Form("%s_%s", cut1.GetName(), cut2.GetName()))->FindObject(h)]. *)
Definition pair_hist (pairtype : PairType) (cut1 cut2 : Cut G) (h : string)
    : list string :=
  ["Pair"; pairnames pairtype; GetName cut1 ++ "_" ++ GetName cut2; h].

(** The event gates of [SameEventPairing] (lines 203-223): the fills made for
    the collision, and whether the candidates of the collision are paired. *)
Definition SameEventPairing_gates (pairtype : PairType) (collision : Collision)
    : list (Fill G) * bool :=
  if (PairType_eqb pairtype kPHOSPHOS || PairType_eqb pairtype kPCMPHOS)
     && negb (isPHOSCPVreadout collision)
  then ([], false) else
  let seen := [Fill1D (event_hist pairtype "hZvtx_before") (posZ collision);
               Fill1D (event_hist pairtype "hCollisionCounter") 1] in
  if negb (sel8 collision) then (seen, false) else
  let s2 := (seen ++ [Fill1D (event_hist pairtype "hCollisionCounter") 2])%list in
  if Qlt_bool (inject_Z (numContrib collision)) (1 # 2) then (s2, false) else
  let s3 := (s2 ++ [Fill1D (event_hist pairtype "hCollisionCounter") 3])%list in
  if Qlt_bool 10 (Qabs (posZ collision)) then (s3, false) else
  ((s3 ++ [Fill1D (event_hist pairtype "hZvtx_after") (posZ collision);
           Fill1D (event_hist pairtype "hCollisionCounter") 4])%list, true).

(** The fill of one candidate pair that passed [IsSelectedPair]
    (lines 235-249, 259-273, 331-345). *)
Definition fill_pair (pairtype : PairType) (h : string) (cut1 cut2 : Cut G)
    (g1 g2 : nat * G) : Fill G :=
  FillND (pair_hist pairtype cut1 cut2 h) g1 g2 (pair_values g1 g2).

(** The pair loops of [SameEventPairing] on the candidates of one collision
    (lines 228-277). *)
Definition SameEventPairing_pairs (pairtype : PairType)
    (photons1_coll photons2_coll : Table G) (cuts1 cuts2 : list (Cut G))
    : list (Fill G) :=
  if same_subsystem pairtype then
    flat_map (fun cut =>
      flat_map (fun g12 : (nat * G) * (nat * G) =>
        let '(g1, g2) := g12 in
        if negb (IsSelectedPair pairtype g1 g2 cut cut) then []
        else [fill_pair pairtype "hs_q_same" cut cut g1 g2])
        (CombinationsStrictlyUpperIndexPolicy photons1_coll photons2_coll))
      cuts1
  else
    flat_map (fun cut1 =>
      flat_map (fun cut2 =>
        flat_map (fun g12 : (nat * G) * (nat * G) =>
          let '(g1, g2) := g12 in
          if negb (IsSelectedPair pairtype g1 g2 cut1 cut2) then []
          else [fill_pair pairtype "hs_q_same" cut1 cut2 g1 g2])
          (CombinationsFullIndexPolicy photons1_coll photons2_coll))
        cuts2)
      cuts1.

(** The body of the collision loop of [SameEventPairing] (lines 201-278). *)
Definition SameEventPairing_body (pairtype : PairType)
    (photons1 photons2 : Table G) (cuts1 cuts2 : list (Cut G))
    (collision : nat * Collision) : list (Fill G) :=
  let '(fills, accepted) := SameEventPairing_gates pairtype (snd collision) in
  if accepted then
    let photons1_coll := sliceBy photonCollisionId (collisionId (snd collision)) photons1 in
    let photons2_coll := sliceBy photonCollisionId (collisionId (snd collision)) photons2 in
    (fills ++ SameEventPairing_pairs pairtype photons1_coll photons2_coll cuts1 cuts2)%list
  else fills.

(** [SameEventPairing<pairtype>] (lines 198-279): for every collision, in
    order, the fills it makes. *)
Definition SameEventPairing (pairtype : PairType) (collisions : Table Collision)
    (photons1 photons2 : Table G) (cuts1 cuts2 : list (Cut G))
    : list ((nat * Collision) * list (Fill G)) :=
  map (fun collision =>
         (collision, SameEventPairing_body pairtype photons1 photons2 cuts1 cuts2 collision))
      collisions.

(** The candidate-count gate of [MixedEventPairing] (lines 304-310): [true]
    when the pair of collisions is skipped. *)
Definition MixedEventPairing_skip (pairtype : PairType) (collision1 collision2 : Collision)
    : bool :=
  match pairtype with
  | kPCMPCM => (ngpcm collision1 <? 2)%Z || (ngpcm collision2 <? 2)%Z
  | kPHOSPHOS => (ngphos collision1 <? 2)%Z || (ngphos collision2 <? 2)%Z
  | kPCMPHOS =>
      ((ngpcm collision1 <? 1)%Z || (ngphos collision1 <? 1)%Z)
      || ((ngpcm collision2 <? 1)%Z || (ngphos collision2 <? 1)%Z)
  | _ => false
  end.

(** The pair loops of [MixedEventPairing] on the candidates of two
    collisions (lines 320-349). *)
Definition MixedEventPairing_pairs (pairtype : PairType)
    (photons_coll1 photons_coll2 : Table G) (cuts1 cuts2 : list (Cut G))
    : list (Fill G) :=
  flat_map (fun cut1 =>
    flat_map (fun cut2 =>
      flat_map (fun g12 : (nat * G) * (nat * G) =>
        let '(g1, g2) := g12 in
        if same_subsystem pairtype && negb (String.eqb (GetName cut1) (GetName cut2))
        then []
        else if negb (IsSelectedPair pairtype g1 g2 cut1 cut2) then []
        else [fill_pair pairtype "hs_q_mix" cut1 cut2 g1 g2])
        (CombinationsFullIndexPolicy photons_coll1 photons_coll2))
      cuts2)
    cuts1.

(** The loop of [MixedEventPairing] (lines 293-351) over the pairs of
    collisions, with its two counters as explicit state.  A pair of
    collisions that reaches line 315 is recorded with the fills it makes; a
    pair that is skipped by a [continue] leaves no record. *)
Fixpoint MixedEventPairing_loop (pairtype : PairType) (ndepth : Z)
    (photons1 photons2 : Table G) (cuts1 cuts2 : list (Cut G))
    (pairs : list ((nat * Collision) * (nat * Collision)))
    (nev index_coll1 : Z)
    : list (((nat * Collision) * (nat * Collision)) * list (Fill G)) :=
  match pairs with
  | [] => []
  | (collision1, collision2) :: rest =>
      let changed := negb (index_coll1 =? collisionId (snd collision1))%Z in
      let index_coll1 := if changed then collisionId (snd collision1) else index_coll1 in
      let nev := if changed then 0%Z else nev in
      if (nev >? ndepth)%Z then
        MixedEventPairing_loop pairtype ndepth photons1 photons2 cuts1 cuts2
          rest nev index_coll1
      else if MixedEventPairing_skip pairtype (snd collision1) (snd collision2) then
        MixedEventPairing_loop pairtype ndepth photons1 photons2 cuts1 cuts2
          rest nev index_coll1
      else
        let photons_coll1 :=
          sliceBy photonCollisionId (collisionId (snd collision1)) photons1 in
        let photons_coll2 :=
          sliceBy photonCollisionId (collisionId (snd collision2)) photons2 in
        ((collision1, collision2),
         MixedEventPairing_pairs pairtype photons_coll1 photons_coll2 cuts1 cuts2)
        :: MixedEventPairing_loop pairtype ndepth photons1 photons2 cuts1 cuts2
             rest (nev + 1)%Z index_coll1
  end.

(** [MixedEventPairing<pairtype>] (lines 287-352), with the configurables
    [ndepth] and [colBinning] it reads as arguments. *)
Definition MixedEventPairing (pairtype : PairType) (ndepth : Z)
    (colBinning : Collision -> Z) (collisions : Table Collision)
    (photons1 photons2 : Table G) (cuts1 cuts2 : list (Cut G))
    : list (((nat * Collision) * (nat * Collision)) * list (Fill G)) :=
  MixedEventPairing_loop pairtype ndepth photons1 photons2 cuts1 cuts2
    (selfCombinations colBinning 1000 (-1) collisions)
    0 (-999).

(** [collisionFilter_common] and [collisionFilter_subsys] (lines 357-358);
    [MyFilteredCollisions] is filtered by both. *)
Definition collisionFilter_common (c : Collision) : bool :=
  Qlt_bool (Qabs (posZ c)) 10 && (numContrib c >? 0)%Z && Bool.eqb (sel8 c) true.

Definition collisionFilter_subsys (c : Collision) : bool :=
  (ngpcm c >=? 2)%Z || (ngphos c >=? 2)%Z || ((ngpcm c >=? 1)%Z && (ngphos c >=? 1)%Z).

Definition MyFilteredCollisions (collisions : Table Collision) : Table Collision :=
  Filtered (fun c => collisionFilter_common c && collisionFilter_subsys c) collisions.

(** The task: its cuts and configurables (lines 64-74, 281-285). *)
Record PhotonHBT : Type := mkPhotonHBT {
  fPCMCuts : list (Cut G);
  fPHOSCuts : list (Cut G);
  ndepth : Z;
  ConfVtxBins : list Q;
  ConfMultBins : list Q
}.

(** [colBinning] (line 285). *)
Definition colBinning (task : PhotonHBT) : Collision -> Z :=
  ColumnBinningPolicy_getBin (ConfVtxBins task) (ConfMultBins task).

(** [processPCMPCM], [processPHOSPHOS] and [processPCMPHOS] (lines 361-377):
    the same-event records, then the mixed-event records. *)
Definition process (pairtype : PairType) (task : PhotonHBT)
    (collisions : list Collision) (photons1 photons2 : list G)
    (cuts1 cuts2 : list (Cut G)) :=
  (SameEventPairing pairtype (asTable collisions)
     (asTable photons1) (asTable photons2) cuts1 cuts2,
   MixedEventPairing pairtype (ndepth task) (colBinning task)
     (MyFilteredCollisions (asTable collisions))
     (asTable photons1) (asTable photons2) cuts1 cuts2).

Definition processPCMPCM (task : PhotonHBT) (collisions : list Collision)
    (v0photons : list G) :=
  process kPCMPCM task collisions v0photons v0photons (fPCMCuts task) (fPCMCuts task).

Definition processPHOSPHOS (task : PhotonHBT) (collisions : list Collision)
    (phosclusters : list G) :=
  process kPHOSPHOS task collisions phosclusters phosclusters
    (fPHOSCuts task) (fPHOSCuts task).

Definition processPCMPHOS (task : PhotonHBT) (collisions : list Collision)
    (v0photons phosclusters : list G) :=
  process kPCMPHOS task collisions v0photons phosclusters
    (fPCMCuts task) (fPHOSCuts task).

End Pairing.

Arguments PhotonHBT G : clear implicits.

(** The default values of the configurables (lines 281-283). *)
Definition ndepth_default : Z := 10.

Definition ConfVtxBins_default : list Q :=
  map inject_Z [-10; -8; -6; -4; -2; 0; 2; 4; 6; 8; 10]%Z.

Definition ConfMultBins_default : list Q :=
  map inject_Z [0; 10; 20; 40; 60; 80; 100; 200; 10000000000]%Z.

(* ================================================================= *)
(** ** Notions used in the statements *)

(** The PHOS/CPV readout gate of line 203: [true] when the collision is not
    skipped by it. *)
Definition readout_gate (pairtype : PairType) (c : Collision) : bool :=
  negb (PairType_eqb pairtype kPHOSPHOS || PairType_eqb pairtype kPCMPHOS)
  || isPHOSCPVreadout c.

(** The number of accounting stages a collision passes, in the words of the
    specification: seen; selection flag set; contributor count > 0;
    |vertex z| < 10. *)
Definition stages_passed (c : Collision) : nat :=
  if negb (sel8 c) then 1
  else if negb (0 <? numContrib c)%Z then 2
  else if negb (Qlt_bool (Qabs (posZ c)) 10) then 3
  else 4.

(** The values filled into [hCollisionCounter] of a pair type, in order. *)
Definition hCollisionCounter_fills {G : Type} (pairtype : PairType)
    (fills : list (Fill G)) : list Q :=
  flat_map (fun f => match f with
                     | Fill1D path x =>
                         if list_eq_dec string_dec path
                              ["Event"; pairnames pairtype; "hCollisionCounter"]
                         then [x] else []
                     | FillND _ _ _ _ => []
                     end) fills.

(** The test of line 103 on the name of the pair type. *)
Definition same_subsystem_name (pairname : string) : bool :=
  String.eqb pairname "PCMPCM" || String.eqb pairname "PHOSPHOS"
  || String.eqb pairname "EMCEMC".

(** When the loop body of [add_pair_histograms] adds the bucket of a pair of
    cuts: always for two subsystems, for equal cut names otherwise. *)
Definition adds_bucket {G1 G2 : Type} (pairname : string)
    (cut1 : Cut G1) (cut2 : Cut G2) : Prop :=
  if same_subsystem_name pairname then GetName cut1 = GetName cut2 else True.

(** The names of the objects of a list. *)
Definition names (lst : TObject) : list string := map TObject_name (TObject_objs lst).

(** The buckets of a pair type under [fMainList->FindObject("Pair")]. *)
Definition pair_buckets (fMainList : TObject) (pairname : string) : list string :=
  match FindObject fMainList "Pair" with
  | Some list_pair => buckets list_pair pairname
  | None => []
  end.

(** The global indices of the rows of a table, and tables whose rows come in
    increasing index order. *)
Definition indices {A : Type} (t : Table A) : list nat := map fst t.

Definition ascending {A : Type} (t : Table A) : Prop := StronglySorted lt (indices t).

(** The order in which [groupTable] leaves the tagged rows. *)
Definition binned_le {A : Type} (x y : Z * (nat * A)) : Prop := binning_lt y x = false.

(** The two global indices of every enumerated pair. *)
Definition index_pairs {A B : Type} (ps : list ((nat * A) * (nat * B)))
    : list (nat * nat) :=
  map (fun p => (fst (fst p), fst (snd p))) ps.

(** The two global indices of every pair fill of a trace. *)
Definition fill_index_pairs {G : Type} (fills : list (Fill G)) : list (nat * nat) :=
  flat_map (fun f => match f with
                     | Fill1D _ _ => []
                     | FillND _ g1 g2 _ => [(fst g1, fst g2)]
                     end) fills.

(** The mixed-event records of one anchor: those whose first collision is the
    row [anchor]; and the rows paired with it. *)
Definition records_of_anchor {G : Type} (anchor : nat)
    (mixed : list (((nat * Collision) * (nat * Collision)) * list (Fill G)))
    : list (((nat * Collision) * (nat * Collision)) * list (Fill G)) :=
  filter (fun r => Nat.eqb (fst (fst (fst r))) anchor) mixed.

Definition pairs_of_anchor (anchor : nat)
    (pairs : list ((nat * Collision) * (nat * Collision)))
    : list ((nat * Collision) * (nat * Collision)) :=
  filter (fun p => Nat.eqb (fst (fst p)) anchor) pairs.

(** A pair of collisions that passes the candidate-count gate of lines
    304-310. *)
Definition mixable (pairtype : PairType) (p : (nat * Collision) * (nat * Collision))
    : bool :=
  negb (MixedEventPairing_skip pairtype (snd (fst p)) (snd (snd p))).

Definition partners_of_anchor {G : Type} (anchor : nat)
    (mixed : list (((nat * Collision) * (nat * Collision)) * list (Fill G)))
    : list nat :=
  map (fun r => fst (snd (fst r))) (records_of_anchor anchor mixed).

(** The histogram paths of the pair fills of a list of records. *)
Definition pair_fill_paths {K G : Type} (records : list (K * list (Fill G)))
    : list (list string) :=
  flat_map (fun r =>
    flat_map (fun f => match f with
                       | Fill1D _ _ => []
                       | FillND path _ _ _ => [path]
                       end) (snd r)) records.

(** A path that leads into a bucket of the pair type under [fMainList], to
    one of the two pair histograms. *)
Definition into_bucket (fMainList : TObject) (pairname : string) (path : list string)
    : Prop :=
  exists n h, path = ["Pair"; pairname; n; h]
    /\ In n (pair_buckets fMainList pairname)
    /\ (h = "hs_q_same" \/ h = "hs_q_mix").

(** How many pair fills of a trace have the global indices [(i, j)]. *)
Definition times_filled {G : Type} (i j : nat) (fills : list (Fill G)) : nat :=
  length (filter (fun p => Nat.eqb (fst p) i && Nat.eqb (snd p) j)
            (fill_index_pairs fills)).

(** The event identifiers of the two candidates of every pair fill. *)
Definition fill_event_ids {G : Type} `{Candidate G} (fills : list (Fill G))
    : list (Z * Z) :=
  flat_map (fun f => match f with
                     | Fill1D _ _ => []
                     | FillND _ g1 g2 _ =>
                         [(photonCollisionId (snd g1), photonCollisionId (snd g2))]
                     end) fills.

(** The number of pair fills of every record. *)
Definition fill_counts {K G : Type} (records : list (K * list (Fill G))) : list nat :=
  map (fun r => length (snd r)) records.

(* ================================================================= *)
(** ** A concrete candidate type and concrete inputs *)

(** A candidate row: its event, its [(pt, eta, phi)], and one column standing
    for the subsystem-specific columns that the cuts read. *)
Record PhotonCandidate : Type := mkPhotonCandidate {
  cand_collisionId : Z;
  cand_pt : R;
  cand_eta : R;
  cand_phi : R;
  cand_payload : Z
}.

#[export] Instance PhotonCandidate_Candidate : Candidate PhotonCandidate :=
  {| photonCollisionId := cand_collisionId;
     pt := cand_pt; eta := cand_eta; phi := cand_phi |}.

(** A cut of the given name: it accepts the candidates of positive payload. *)
Definition cut_named (name : string) : Cut PhotonCandidate :=
  mkCut name (fun g => (0 <? cand_payload g)%Z).

(** The default cut lists of lines 64-65. *)
Definition example_PCMCuts : list (Cut PhotonCandidate) :=
  map cut_named ["analysis"; "qc"; "nocut"].

Definition example_PHOSCuts : list (Cut PhotonCandidate) :=
  map cut_named ["test02"; "test03"].

(** The task with its default configurables. *)
Definition example_task : PhotonHBT PhotonCandidate :=
  mkPhotonHBT example_PCMCuts example_PHOSCuts
    ndepth_default ConfVtxBins_default ConfMultBins_default.

(** The same task with another mixing depth. *)
Definition example_task_with_depth (depth : Z) : PhotonHBT PhotonCandidate :=
  mkPhotonHBT example_PCMCuts example_PHOSCuts
    depth ConfVtxBins_default ConfMultBins_default.

(** A collision that passes every event gate and every candidate-count gate,
    at [posZ = 0] with 5 tracks: all such collisions share one mixing bin. *)
Definition good_collision (id : Z) : Collision :=
  {| collisionId := id; posZ := 0; numContrib := 1; sel8 := true;
     isPHOSCPVreadout := true; multNTracksPV := 5;
     ngpcm := 2; ngphos := 2; ngemc := 0 |}.

(** The same collision without the PHOS/CPV readout flag. *)
Definition collision_no_readout (id : Z) : Collision :=
  {| collisionId := id; posZ := 0; numContrib := 1; sel8 := true;
     isPHOSCPVreadout := false; multNTracksPV := 5;
     ngpcm := 2; ngphos := 2; ngemc := 0 |}.

(** A collision with its PHOS/CPV readout flag set to [b]. *)
Definition set_readout (b : bool) (c : Collision) : Collision :=
  {| collisionId := collisionId c; posZ := posZ c; numContrib := numContrib c;
     sel8 := sel8 c; isPHOSCPVreadout := b; multNTracksPV := multNTracksPV c;
     ngpcm := ngpcm c; ngphos := ngphos c; ngemc := ngemc c |}.

(** A collision exactly on the vertex boundary. *)
Definition collision_on_boundary : Collision :=
  {| collisionId := 0; posZ := 10; numContrib := 1; sel8 := true;
     isPHOSCPVreadout := true; multNTracksPV := 5;
     ngpcm := 2; ngphos := 2; ngemc := 0 |}.

(** An accepted candidate of the event [id]. *)
Definition good_candidate (id : Z) : PhotonCandidate :=
  {| cand_collisionId := id; cand_pt := 1; cand_eta := 0; cand_phi := 0;
     cand_payload := 1 |}.

(** A rejected candidate of the event [id]. *)
Definition bad_candidate (id : Z) : PhotonCandidate :=
  {| cand_collisionId := id; cand_pt := 1; cand_eta := 0; cand_phi := 0;
     cand_payload := 0 |}.

(** Sixteen collisions of one mixing bin, with two candidates each: the
    first of them has fifteen partners. *)
Definition sixteen_collisions : list Collision :=
  map (fun i => good_collision (Z.of_nat i)) (seq 0 16).

Definition sixteen_collisions_photons : list PhotonCandidate :=
  flat_map (fun i => [good_candidate (Z.of_nat i); good_candidate (Z.of_nat i)])
    (seq 0 16).

(** Two collisions of one mixing bin, with two candidates each. *)
Definition two_collisions : list Collision := [good_collision 0; good_collision 1].

Definition four_candidates : list PhotonCandidate :=
  [good_candidate 0; good_candidate 0; good_candidate 1; good_candidate 1].

(** Two collisions of one mixing bin without the readout flag, each with a
    PCM photon and a PHOS cluster. *)
Definition two_collisions_no_readout : list Collision :=
  [collision_no_readout 0; collision_no_readout 1].

Definition two_collisions_candidates : list PhotonCandidate :=
  [good_candidate 0; good_candidate 1].

(** Two rows of the collision table with one identifier, and two
    candidates of that identifier. *)
Definition repeated_id_collisions : list Collision := [good_collision 7; good_collision 7].

Definition repeated_id_photons : list PhotonCandidate :=
  [good_candidate 7; good_candidate 7].

(** A collision on the vertex boundary followed by two inside, of one mixing
    bin, with two candidates each. *)
Definition boundary_collisions : list Collision :=
  [collision_on_boundary; good_collision 1; good_collision 2].

Definition six_candidates : list PhotonCandidate :=
  [good_candidate 0; good_candidate 0; good_candidate 1; good_candidate 1;
   good_candidate 2; good_candidate 2].


(* ================================================================= *)
(** ** The kinematic block *)

Section KinematicsFacts.
Import Kinematics.
Local Open Scope R_scope.

Lemma cosh_pos (x : R) : 0 < cosh x.
Proof.
  unfold cosh. pose proof (exp_pos x). pose proof (exp_pos (- x)). lra.
Qed.

Lemma sin_cos_square (x : R) : cos x * cos x + sin x * sin x = 1.
Proof.
  pose proof (sin2_cos2 x) as Hx. unfold Rsqr in Hx. lra.
Qed.

Lemma cosh_sinh_square (x : R) : cosh x * cosh x - sinh x * sinh x = 1.
Proof.
  unfold cosh, sinh.
  assert (Hexp : exp x * exp (- x) = 1).
  { rewrite <- exp_plus. replace (x + - x) with 0 by ring. apply exp_0. }
  transitivity (exp x * exp (- x)); [field | exact Hexp].
Qed.

(** The momentum magnitude of a vector built from [(pt, eta, phi)]. *)
Lemma P_PtEtaPhiM (pt eta phi m : R) :
  P (PtEtaPhiMVector pt eta phi m) = Rabs pt * cosh eta.
Proof.
  unfold P, PtEtaPhiMVector; simpl.
  replace (pt * cos phi * (pt * cos phi) + pt * sin phi * (pt * sin phi)
           + pt * sinh eta * (pt * sinh eta))
    with ((pt * cosh eta) * (pt * cosh eta)).
  - fold (Rsqr (pt * cosh eta)). rewrite sqrt_Rsqr_abs, Rabs_mult.
    f_equal. apply Rabs_pos_eq. left. apply cosh_pos.
  - pose proof (sin_cos_square phi) as Ht. pose proof (cosh_sinh_square eta) as Hh.
    assert (Hc : cosh eta * cosh eta = 1 + sinh eta * sinh eta) by lra.
    transitivity (pt * pt * (cosh eta * cosh eta)); [ring|].
    rewrite Hc.
    transitivity (pt * pt * (cos phi * cos phi + sin phi * sin phi)
                  + pt * pt * (sinh eta * sinh eta)); [rewrite Ht; ring | ring].
Qed.

(** Its transverse momentum. *)
Lemma Pt_PtEtaPhiM (pt eta phi m : R) :
  Pt (PtEtaPhiMVector pt eta phi m) = Rabs pt.
Proof.
  unfold Pt, PtEtaPhiMVector; simpl.
  replace (pt * cos phi * (pt * cos phi) + pt * sin phi * (pt * sin phi))
    with (pt * pt).
  - fold (Rsqr pt). apply sqrt_Rsqr_abs.
  - pose proof (sin_cos_square phi) as Ht.
    transitivity (pt * pt * (cos phi * cos phi + sin phi * sin phi));
      [rewrite Ht; ring | ring].
Qed.

(** The half-sum of a vector with itself is the vector. *)
Lemma k12_same (pt eta phi : R) :
  k12 pt eta phi pt eta phi = PtEtaPhiMVector pt eta phi 0.
Proof.
  unfold k12, lv_scale, lv_plus; simpl.
  unfold PtEtaPhiMVector. f_equal; field.
Qed.

Lemma k12_comm (pt1 eta1 phi1 pt2 eta2 phi2 : R) :
  k12 pt1 eta1 phi1 pt2 eta2 phi2 = k12 pt2 eta2 phi2 pt1 eta1 phi1.
Proof.
  unfold k12, lv_scale, lv_plus; simpl. f_equal; ring.
Qed.

Lemma M2_q12_swap (pt1 eta1 phi1 pt2 eta2 phi2 : R) :
  M2 (q12 pt2 eta2 phi2 pt1 eta1 phi1) = M2 (q12 pt1 eta1 phi1 pt2 eta2 phi2).
Proof.
  unfold M2, q12, lv_minus; simpl. ring.
Qed.

Lemma M_q12_swap (pt1 eta1 phi1 pt2 eta2 phi2 : R) :
  M (q12 pt2 eta2 phi2 pt1 eta1 phi1) = M (q12 pt1 eta1 phi1 pt2 eta2 phi2).
Proof.
  unfold M. rewrite M2_q12_swap. reflexivity.
Qed.

Lemma xyz_div_Some (v : XYZVector) (a : R) :
  a <> 0 -> xyz_div v a = Some (mkXYZ (X v / a) (Y v / a) (Z v / a)).
Proof.
  intros Ha. unfold xyz_div. destruct (Req_EM_T a 0); [contradiction | reflexivity].
Qed.

Lemma xyz_div_None (v : XYZVector) (a : R) : a = 0 -> xyz_div v a = None.
Proof.
  intros Ha. unfold xyz_div. destruct (Req_EM_T a 0); [reflexivity | contradiction].
Qed.

(** For identical candidates, [kt] is the absolute value of the common [pt]. *)
Lemma KinematicTransform_identical_kt (pt eta phi : R) (v : Values) :
  KinematicTransform pt eta phi pt eta phi = Some v -> kt v = Rabs pt.
Proof.
  unfold KinematicTransform. rewrite k12_same, Pt_PtEtaPhiM.
  destruct (xyz_div _ _); [|discriminate].
  intros Hv. injection Hv as <-. reflexivity.
Qed.

(** C7, as stated, fails: for identical candidates of [pt = 0] the division
    by [k12.P()] is a division by zero and no values are defined; for
    identical candidates of [pt = -1] the values are defined and [kt] is [1],
    not the common [pt]. *)
Lemma KinematicTransform_identical_counterexample :
  KinematicTransform 0 0 0 0 0 0 = None
  /\ KinematicTransform (-1) 0 0 (-1) 0 0 <> Some (mkValues 0 0 0 0 (-1)).
Proof.
  split.
  - unfold KinematicTransform. rewrite k12_same, P_PtEtaPhiM.
    rewrite xyz_div_None; [reflexivity|]. rewrite Rabs_R0. ring.
  - intros Hv. apply KinematicTransform_identical_kt in Hv. simpl in Hv.
    rewrite Rabs_left in Hv by lra. lra.
Qed.

(** C7 (amended): for every pair of candidates with identical
    [(pt, eta, phi)] and [pt > 0], the kinematic block yields [qinv = 0],
    [qlong = qout = qside = 0] and [kt] equal to the common [pt]. *)
Theorem KinematicTransform_identical (pt eta phi : R) :
  0 < pt ->
  KinematicTransform pt eta phi pt eta phi = Some (mkValues 0 0 0 0 pt).
Proof.
  intros Hpt. unfold KinematicTransform.
  rewrite k12_same, P_PtEtaPhiM, Pt_PtEtaPhiM.
  rewrite (Rabs_pos_eq pt) by lra.
  rewrite xyz_div_Some by (pose proof (cosh_pos eta); nra).
  f_equal.
  assert (HM : M (q12 pt eta phi pt eta phi) = 0).
  { unfold M. replace (M2 (q12 pt eta phi pt eta phi)) with 0
      by (unfold M2, q12, lv_minus; simpl; ring).
    destruct (Rle_dec 0 0); [apply sqrt_0 | lra]. }
  rewrite HM.
  f_equal.
  - apply Ropp_0.
  - unfold Dot, q12, lv_minus; simpl. ring.
  - unfold Dot, q12, lv_minus; simpl. unfold Rdiv. ring.
  - unfold Dot, Cross, q12, lv_minus; simpl. unfold Rdiv. ring.
Qed.

(** The amended C7 at [pt = 1], [eta = phi = 0]. *)
Lemma KinematicTransform_identical_witness :
  0 < 1 /\ KinematicTransform 1 0 0 1 0 0 = Some (mkValues 0 0 0 0 1).
Proof.
  split; [lra | apply (KinematicTransform_identical 1 0 0); lra].
Defined.

(** C8: exchanging the two candidates leaves [qinv] and [kt] unchanged and
    flips the sign of [qlong], [qout] and [qside]; when the values of one
    order are undefined, so are those of the other. *)
Theorem KinematicTransform_swap (pt1 eta1 phi1 pt2 eta2 phi2 : R) :
  KinematicTransform pt2 eta2 phi2 pt1 eta1 phi1
  = option_map swapped (KinematicTransform pt1 eta1 phi1 pt2 eta2 phi2).
Proof.
  unfold KinematicTransform.
  rewrite (k12_comm pt2 eta2 phi2 pt1 eta1 phi1), M_q12_swap.
  destruct (xyz_div _ _) as [uv_out|]; [|reflexivity].
  simpl. unfold swapped; simpl. f_equal. f_equal.
  - unfold Dot; simpl. ring.
  - unfold Dot; simpl. ring.
  - unfold Dot, Cross; simpl. ring.
Qed.


End KinematicsFacts.

(* ================================================================= *)
(** ** The event gates of same-event pairing and of the mixing pool *)

Section EventGates.
Context {G : Type}.

Lemma Qlt_bool_iff (x y : Q) : Qlt_bool x y = true <-> x < y.
Proof.
  unfold Qlt_bool. rewrite negb_true_iff. split.
  - intros Hb. apply Qnot_le_lt. intros Hle.
    apply Qle_bool_iff in Hle. congruence.
  - intros Hlt. destruct (Qle_bool y x) eqn:Hb; [|reflexivity].
    apply Qle_bool_iff in Hb. exfalso. exact (Qlt_not_le _ _ Hlt Hb).
Qed.

Lemma Qlt_bool_false_iff (x y : Q) : Qlt_bool x y = false <-> y <= x.
Proof.
  unfold Qlt_bool. rewrite negb_false_iff. apply Qle_bool_iff.
Qed.

(** Away from the boundary, [10 < |z|] is the negation of [|z| < 10]. *)
Lemma vertex_gate_off_boundary (z : Q) :
  ~ Qabs z == 10 -> Qlt_bool 10 (Qabs z) = negb (Qlt_bool (Qabs z) 10).
Proof.
  intros Hz.
  destruct (Qlt_bool 10 (Qabs z)) eqn:Hgt;
    destruct (Qlt_bool (Qabs z) 10) eqn:Hlt; simpl; try reflexivity.
  - apply Qlt_bool_iff in Hgt, Hlt. exfalso.
    exact (Qlt_irrefl _ (Qlt_trans _ _ _ Hgt Hlt)).
  - apply Qlt_bool_false_iff in Hgt, Hlt. exfalso. apply Hz.
    apply Qle_antisym; assumption.
Qed.

(** [numContrib < 0.5] on an integer column is [numContrib <= 0]. *)
Lemma numContrib_gate (n : Z) :
  Qlt_bool (inject_Z n) (1 # 2) = negb (0 <? n)%Z.
Proof.
  unfold Qlt_bool, Qle_bool; simpl. f_equal.
  destruct (Z.leb_spec 1 (n * 2)); destruct (Z.ltb_spec 0 n); lia.
Qed.

Lemma SameEventPairing_gates_accept (pairtype : PairType) (c : Collision) :
  snd (SameEventPairing_gates (G:=G) pairtype c)
  = readout_gate pairtype c && sel8 c && (0 <? numContrib c)%Z
    && negb (Qlt_bool 10 (Qabs (posZ c))).
Proof.
  unfold SameEventPairing_gates, readout_gate.
  rewrite numContrib_gate.
  destruct (PairType_eqb pairtype kPHOSPHOS || PairType_eqb pairtype kPCMPHOS);
    destruct (isPHOSCPVreadout c); destruct (sel8 c);
    destruct (0 <? numContrib c)%Z; destruct (Qlt_bool 10 (Qabs (posZ c)));
    reflexivity.
Qed.

(** The gates fill one-dimensional histograms only. *)
Lemma SameEventPairing_gates_Fill1D (pairtype : PairType) (c : Collision)
    (path : list string) (g1 g2 : nat * G) (v : option Kinematics.Values) :
  ~ In (FillND path g1 g2 v) (fst (SameEventPairing_gates pairtype c)).
Proof.
  unfold SameEventPairing_gates.
  destruct ((PairType_eqb pairtype kPHOSPHOS || PairType_eqb pairtype kPCMPHOS)
            && negb (isPHOSCPVreadout c)); [intros []|].
  destruct (negb (sel8 c)); [simpl; intuition discriminate|].
  destruct (Qlt_bool (inject_Z (numContrib c)) (1 # 2)); [simpl; intuition discriminate|].
  destruct (Qlt_bool 10 (Qabs (posZ c))); simpl; intuition discriminate.
Qed.

(** C3 (amended): in same-event pairing, a collision that fails the PHOS/CPV
    readout gate of the pair types PHOSPHOS and PCMPHOS is skipped before
    anything is recorded.  Every other collision is first counted as seen
    ([hZvtx_before], then [hCollisionCounter] at 1) before any rejection; then,
    off the boundary [|z| = 10], the counter records exactly the stages passed
    in the order selection flag, contributor count > 0, [|z| < 10], and the
    collision is paired exactly when it passes all four. *)
Theorem SameEventPairing_gates_stages (pairtype : PairType) (c : Collision) :
  (readout_gate pairtype c = false ->
     SameEventPairing_gates (G:=G) pairtype c = ([], false))
  /\ (readout_gate pairtype c = true ->
      exists rest,
        fst (SameEventPairing_gates (G:=G) pairtype c)
        = Fill1D (event_hist pairtype "hZvtx_before") (posZ c)
            :: Fill1D (event_hist pairtype "hCollisionCounter") 1 :: rest)
  /\ (readout_gate pairtype c = true -> ~ Qabs (posZ c) == 10 ->
      hCollisionCounter_fills pairtype (fst (SameEventPairing_gates (G:=G) pairtype c))
      = firstn (stages_passed c) [1; 2; 3; 4]
      /\ (snd (SameEventPairing_gates (G:=G) pairtype c) = true
          <-> stages_passed c = 4%nat)).
Proof.
  split; [|split].
  - unfold readout_gate, SameEventPairing_gates.
    destruct (PairType_eqb pairtype kPHOSPHOS || PairType_eqb pairtype kPCMPHOS);
      destruct (isPHOSCPVreadout c); simpl; intros Hro;
      try discriminate; reflexivity.
  - unfold readout_gate, SameEventPairing_gates.
    destruct (PairType_eqb pairtype kPHOSPHOS || PairType_eqb pairtype kPCMPHOS);
      destruct (isPHOSCPVreadout c); simpl; intros Hro; try discriminate;
      destruct (sel8 c); simpl;
      destruct (Qlt_bool (inject_Z (numContrib c)) (1 # 2)); simpl;
      destruct (Qlt_bool 10 (Qabs (posZ c))); simpl; eexists; reflexivity.
  - intros Hro Hz. revert Hro.
    unfold readout_gate, SameEventPairing_gates, stages_passed.
    rewrite numContrib_gate, (vertex_gate_off_boundary _ Hz).
    destruct (isPHOSCPVreadout c); destruct (sel8 c);
      destruct (0 <? numContrib c)%Z; destruct (Qlt_bool (Qabs (posZ c)) 10);
      destruct pairtype; simpl; intros Hro; try discriminate;
      (split; [reflexivity | split; intros Hx; (reflexivity || discriminate)]).
Qed.

(** On the boundary [|posZ| = 10], with the other gates passed, the gates of
    same-event pairing accept the collision and the filter of the mixing
    pool rejects it; off the boundary the two agree. *)
Lemma vertex_gates_on_boundary (pairtype : PairType) (c : Collision) :
  sel8 c = true -> (0 < numContrib c)%Z -> readout_gate pairtype c = true ->
  (Qabs (posZ c) == 10 ->
     snd (SameEventPairing_gates (G:=G) pairtype c) = true
     /\ collisionFilter_common c = false)
  /\ (~ Qabs (posZ c) == 10 ->
      snd (SameEventPairing_gates (G:=G) pairtype c) = collisionFilter_common c).
Proof.
  intros Hsel Hn Hro.
  rewrite SameEventPairing_gates_accept, Hro, Hsel.
  unfold collisionFilter_common. rewrite Hsel.
  assert (Hn1 : (0 <? numContrib c)%Z = true) by (apply Z.ltb_lt; exact Hn).
  assert (Hn2 : (numContrib c >? 0)%Z = true) by (apply Z.gtb_lt; exact Hn).
  rewrite Hn1, Hn2. simpl. rewrite !andb_true_r.
  split.
  - intros Hz. split.
    + apply negb_true_iff, Qlt_bool_false_iff. rewrite Hz. apply Qle_refl.
    + apply Qlt_bool_false_iff. rewrite Hz. apply Qle_refl.
  - intros Hz. rewrite (vertex_gate_off_boundary _ Hz). apply negb_involutive.
Qed.

End EventGates.

(** C3, as stated, fails: a PHOSPHOS collision without the readout flag is
    not counted as seen, nothing at all is recorded for it. *)
Lemma PHOSPHOS_collision_not_seen :
  fst (SameEventPairing_gates (G:=PhotonCandidate) kPHOSPHOS (collision_no_readout 0)) = []
  /\ ~ In (Fill1D (event_hist kPHOSPHOS "hCollisionCounter") 1)
          (fst (SameEventPairing_gates (G:=PhotonCandidate) kPHOSPHOS
                  (collision_no_readout 0))).
Proof.
  split; [reflexivity | simpl; intros []].
Qed.

(** The amended C3 at a PCMPCM collision that passes every gate. *)
Lemma SameEventPairing_gates_stages_witness :
  readout_gate kPCMPCM (good_collision 0) = true
  /\ ~ Qabs (posZ (good_collision 0)) == 10
  /\ hCollisionCounter_fills kPCMPCM
       (fst (SameEventPairing_gates (G:=PhotonCandidate) kPCMPCM (good_collision 0)))
     = firstn (stages_passed (good_collision 0)) [1; 2; 3; 4]
  /\ (snd (SameEventPairing_gates (G:=PhotonCandidate) kPCMPCM (good_collision 0)) = true
      <-> stages_passed (good_collision 0) = 4%nat).
Proof.
  assert (Hro : readout_gate kPCMPCM (good_collision 0) = true) by reflexivity.
  assert (Hz : ~ Qabs (posZ (good_collision 0)) == 10) by (vm_compute; discriminate).
  split; [exact Hro|]. split; [exact Hz|].
  exact (proj2 (proj2 (SameEventPairing_gates_stages (G:=PhotonCandidate)
                         kPCMPCM (good_collision 0))) Hro Hz).
Defined.

(* ================================================================= *)
(** ** Pair selection *)

Section Selection.
Context {G : Type} `{Candidate G}.

(** C6 (amended): for the pair types PCMPCM, PHOSPHOS and PCMPHOS,
    [IsSelectedPair] returns true exactly when candidate 1 passes [cut1] and
    candidate 2 passes [cut2]; for the pair types EMCEMC, PCMEMC and PHOSEMC
    it returns true whatever the cuts say.  It is a function of its
    arguments and nothing else. *)
Theorem IsSelectedPair_true_iff (pairtype : PairType) (g1 g2 : nat * G)
    (cut1 cut2 : Cut G) :
  (pairtype = kPCMPCM \/ pairtype = kPHOSPHOS \/ pairtype = kPCMPHOS ->
   (IsSelectedPair pairtype g1 g2 cut1 cut2 = true
    <-> IsSelected cut1 (snd g1) = true /\ IsSelected cut2 (snd g2) = true))
  /\ (pairtype = kEMCEMC \/ pairtype = kPCMEMC \/ pairtype = kPHOSEMC ->
      IsSelectedPair pairtype g1 g2 cut1 cut2 = true).
Proof.
  split.
  - intros [-> | [-> | ->]]; simpl; apply andb_true_iff.
  - intros [-> | [-> | ->]]; reflexivity.
Qed.

End Selection.

(** C6, as stated, fails: for the pair type EMCEMC [IsSelectedPair] returns
    true on two candidates that both fail their cut. *)
Lemma IsSelectedPair_EMCEMC_counterexample :
  IsSelectedPair kEMCEMC (0%nat, bad_candidate 0) (1%nat, bad_candidate 0)
    (cut_named "analysis") (cut_named "analysis") = true
  /\ IsSelected (cut_named "analysis") (bad_candidate 0) = false.
Proof.
  split; reflexivity.
Qed.

(** The amended C6 at the pair type PCMPCM, an accepted and a rejected
    candidate. *)
Lemma IsSelectedPair_true_iff_witness :
  (kPCMPCM = kPCMPCM \/ kPCMPCM = kPHOSPHOS \/ kPCMPCM = kPCMPHOS)
  /\ (IsSelectedPair kPCMPCM (0%nat, good_candidate 0) (1%nat, bad_candidate 0)
        (cut_named "analysis") (cut_named "analysis") = true
      <-> IsSelected (cut_named "analysis") (good_candidate 0) = true
          /\ IsSelected (cut_named "analysis") (bad_candidate 0) = true).
Proof.
  assert (Hp : kPCMPCM = kPCMPCM \/ kPCMPCM = kPHOSPHOS \/ kPCMPCM = kPCMPHOS)
    by (left; reflexivity).
  split; [exact Hp|].
  exact (proj1 (IsSelectedPair_true_iff kPCMPCM (0%nat, good_candidate 0)
                  (1%nat, bad_candidate 0) (cut_named "analysis") (cut_named "analysis"))
           Hp).
Defined.

(* ================================================================= *)
(** ** Histogram buckets *)

Section Histograms.

Lemma update_first_names (n : string) (f : TObject -> TObject) (objs : list TObject) :
  (forall o, TObject_name (f o) = TObject_name o) ->
  map TObject_name (update_first n f objs) = map TObject_name objs.
Proof.
  intros Hf. induction objs as [|o r IH]; simpl; [reflexivity|].
  destruct (String.eqb (TObject_name o) n); simpl.
  - rewrite Hf. reflexivity.
  - rewrite IH. reflexivity.
Qed.

Lemma update_object_names (lst : TObject) (n : string) (f : TObject -> TObject) :
  (forall o, TObject_name (f o) = TObject_name o) ->
  names (update_object lst n f) = names lst.
Proof.
  intros Hf. unfold names, update_object; simpl. apply update_first_names. exact Hf.
Qed.

Lemma FindObject_update_object (lst : TObject) (n : string) (f : TObject -> TObject) :
  (forall o, TObject_name (f o) = TObject_name o) ->
  FindObject (update_object lst n f) n = option_map f (FindObject lst n).
Proof.
  intros Hf. unfold FindObject, update_object; simpl.
  induction (TObject_objs lst) as [|o r IH]; simpl; [reflexivity|].
  destruct (String.eqb (TObject_name o) n) eqn:Ho; simpl.
  - rewrite Hf, Ho. reflexivity.
  - rewrite Ho. exact IH.
Qed.

Lemma DefineHistograms_name (lst : TObject) (histClass : string) :
  TObject_name (DefineHistograms lst histClass) = TObject_name lst.
Proof.
  unfold DefineHistograms.
  destruct (String.eqb histClass "Event"); [reflexivity|].
  destruct (String.eqb histClass "photon_hbt"); reflexivity.
Qed.

Lemma AddHistClass_name (lst : TObject) (histClass : string) :
  TObject_name (AddHistClass lst histClass) = TObject_name lst.
Proof.
  unfold AddHistClass. destruct (FindObject lst histClass); reflexivity.
Qed.

Lemma FindObject_Some_In (lst : TObject) (n : string) (o : TObject) :
  FindObject lst n = Some o -> In n (names lst).
Proof.
  unfold FindObject, names. intros Hf. apply find_some in Hf as [Hin Hn].
  apply String.eqb_eq in Hn. subst n. apply in_map. exact Hin.
Qed.

Lemma AddHistClass_names (lst : TObject) (histClass n : string) :
  In n (names (AddHistClass lst histClass)) <-> In n (names lst) \/ n = histClass.
Proof.
  unfold AddHistClass. destruct (FindObject lst histClass) as [o|] eqn:Hf.
  - split; [auto | intros [Hin | ->]; [exact Hin | eapply FindObject_Some_In; eauto]].
  - unfold names; simpl. rewrite map_app, in_app_iff; simpl.
    split; intros [Hin | Hin]; auto.
    destruct Hin as [<- | []]. auto.
Qed.

Context {G1 G2 : Type}.

(** One turn of the loop body: the sublist of the pair type stays, and gains
    at most the bucket of the two cuts. *)
Lemma add_pair_histograms_body_buckets
    (pairname : string) (cut1 : Cut G1) (cut2 : Cut G2) (list_pair : TObject) :
  FindObject list_pair pairname <> None ->
  FindObject (add_pair_histograms_body pairname cut1 cut2 list_pair) pairname <> None
  /\ forall n,
       In n (buckets (add_pair_histograms_body pairname cut1 cut2 list_pair) pairname)
       <-> In n (buckets list_pair pairname)
           \/ (adds_bucket pairname cut1 cut2
               /\ n = GetName cut1 ++ "_" ++ GetName cut2).
Proof.
  intros Hsub. unfold add_pair_histograms_body, adds_bucket.
  fold (same_subsystem_name pairname).
  set (pair_cut_name := GetName cut1 ++ "_" ++ GetName cut2).
  destruct (same_subsystem_name pairname) eqn:Hsym; simpl;
    [destruct (String.eqb (GetName cut1) (GetName cut2)) eqn:Hname; simpl|].
  2:{ split; [exact Hsub|]. intros n. split; [auto|].
      intros [Hin | [Heq _]]; [exact Hin|].
      apply String.eqb_eq in Heq. congruence. }
  all: unfold buckets; rewrite FindObject_update_object
         by (intros o; unfold update_object; simpl; apply AddHistClass_name);
       destruct (FindObject list_pair pairname) as [sub|]; [|contradiction];
       simpl option_map; cbv iota; (split; [discriminate|]); intros n;
       fold (names (update_object (AddHistClass sub pair_cut_name) pair_cut_name
                      (fun list_pair_subsys_cut =>
                         DefineHistograms list_pair_subsys_cut "photon_hbt")));
       rewrite update_object_names by (intros o; apply DefineHistograms_name);
       rewrite AddHistClass_names; fold (names sub).
  - apply String.eqb_eq in Hname. intuition.
  - split; (intros [Hin | Hin]; [left; exact Hin | right]).
    + split; [exact I | exact Hin].
    + exact (proj2 Hin).
Qed.

Lemma add_pair_histograms_inner_buckets
    (pairname : string) (cut1 : Cut G1) (cuts2 : list (Cut G2)) (list_pair : TObject) :
  FindObject list_pair pairname <> None ->
  let list_pair' :=
    fold_left (fun lp' cut2 => add_pair_histograms_body pairname cut1 cut2 lp')
      cuts2 list_pair in
  FindObject list_pair' pairname <> None
  /\ forall n,
       In n (buckets list_pair' pairname)
       <-> In n (buckets list_pair pairname)
           \/ exists cut2, In cut2 cuts2 /\ adds_bucket pairname cut1 cut2
                           /\ n = GetName cut1 ++ "_" ++ GetName cut2.
Proof.
  revert list_pair. induction cuts2 as [|cut2 r IH]; intros list_pair Hsub; simpl.
  - split; [exact Hsub|]. intros n. split; [auto | intros [Hin | [c [[] _]]]; exact Hin].
  - destruct (add_pair_histograms_body_buckets pairname cut1 cut2 list_pair Hsub)
      as [Hsub' Hbody].
    destruct (IH _ Hsub') as [Hsub'' Hfold]. split; [exact Hsub''|].
    intros n. rewrite Hfold, Hbody. split.
    + intros [[Hin | [Hadd Hn]] | [c [Hc Hrest]]].
      * left. exact Hin.
      * right. exists cut2. split; [left; reflexivity | split; assumption].
      * right. exists c. split; [right; exact Hc | exact Hrest].
    + intros [Hin | [c [[<- | Hc] [Hadd Hn]]]].
      * left. left. exact Hin.
      * left. right. split; assumption.
      * right. exists c. split; [exact Hc | split; assumption].
Qed.

Lemma add_pair_histograms_buckets_from
    (pairname : string) (cuts1 : list (Cut G1)) (cuts2 : list (Cut G2))
    (list_pair : TObject) :
  FindObject list_pair pairname <> None ->
  FindObject (add_pair_histograms list_pair pairname cuts1 cuts2) pairname <> None
  /\ forall n,
       In n (buckets (add_pair_histograms list_pair pairname cuts1 cuts2) pairname)
       <-> In n (buckets list_pair pairname)
           \/ exists cut1 cut2, In cut1 cuts1 /\ In cut2 cuts2
                /\ adds_bucket pairname cut1 cut2
                /\ n = GetName cut1 ++ "_" ++ GetName cut2.
Proof.
  unfold add_pair_histograms.
  revert list_pair. induction cuts1 as [|cut1 r IH]; intros list_pair Hsub; simpl.
  - split; [exact Hsub|]. intros n.
    split; [auto | intros [Hin | [c1 [c2 [[] _]]]]; exact Hin].
  - destruct (add_pair_histograms_inner_buckets pairname cut1 cuts2 list_pair Hsub)
      as [Hsub' Hinner].
    destruct (IH _ Hsub') as [Hsub'' Hfold]. split; [exact Hsub''|].
    intros n. rewrite Hfold, Hinner. split.
    + intros [[Hin | [c2 [Hc2 Hrest]]] | [c1 [c2 [Hc1 Hrest]]]].
      * left. exact Hin.
      * right. exists cut1, c2. split; [left; reflexivity | split; assumption].
      * right. exists c1, c2. split; [right; exact Hc1 | exact Hrest].
    + intros [Hin | [c1 [c2 [[<- | Hc1] Hrest]]]].
      * left. left. exact Hin.
      * left. right. exists c2. exact Hrest.
      * right. exists c1, c2. split; [exact Hc1 | exact Hrest].
Qed.

End Histograms.

(** C5: on the fresh sublist of a pair type, [add_pair_histograms] creates
    exactly the buckets [cut1_cut2] with [cut1] in the first list and [cut2] in
    the second, restricted to equal names for the pair types PCMPCM, PHOSPHOS
    and EMCEMC.  With the PCM cuts analysis, qc, nocut and the pair type PCMPCM
    [addhistograms] creates the three diagonal buckets; with the PCM cut
    analysis, the PHOS cuts test02, test03 and the pair type PCMPHOS it creates
    the two buckets of the cross product. *)
Theorem add_pair_histograms_buckets :
  (forall (G1 G2 : Type) (pairname : string)
          (cuts1 : list (Cut G1)) (cuts2 : list (Cut G2)) (n : string),
     In n (buckets (add_pair_histograms (AddHistClass (THashList "Pair" []) pairname)
                      pairname cuts1 cuts2) pairname)
     <-> exists cut1 cut2,
           In cut1 cuts1 /\ In cut2 cuts2
           /\ (if same_subsystem_name pairname
               then GetName cut1 = GetName cut2 else True)
           /\ n = GetName cut1 ++ "_" ++ GetName cut2)
  /\ pair_buckets (addhistograms ["PCMPCM"] example_PCMCuts example_PHOSCuts) "PCMPCM"
     = ["analysis_analysis"; "qc_qc"; "nocut_nocut"]
  /\ pair_buckets (addhistograms ["PCMPHOS"] [cut_named "analysis"] example_PHOSCuts)
       "PCMPHOS"
     = ["analysis_test02"; "analysis_test03"].
Proof.
  split; [|split; reflexivity].
  intros G1 G2 pairname cuts1 cuts2 n.
  assert (Hsub : FindObject (AddHistClass (THashList "Pair" []) pairname) pairname <> None).
  { unfold AddHistClass, FindObject; simpl. rewrite String.eqb_refl. discriminate. }
  destruct (add_pair_histograms_buckets_from pairname cuts1 cuts2 _ Hsub) as [_ Hb].
  rewrite Hb. split.
  - intros [Hin | Hex]; [|exact Hex].
    unfold buckets, AddHistClass, FindObject in Hin; simpl in Hin.
    rewrite String.eqb_refl in Hin. destruct Hin.
  - intros Hex. right. exact Hex.
Qed.

(* ================================================================= *)
(** ** Tables and combination policies *)

Section Tables.
Context {A : Type}.
Local Open Scope nat_scope.

Lemma StronglySorted_seq (a n : nat) : StronglySorted lt (seq a n).
Proof.
  revert a. induction n as [|n IH]; intros a; simpl; constructor.
  - apply IH.
  - apply Forall_forall. intros x Hx. apply in_seq in Hx. lia.
Qed.

Lemma indices_combine_seq (a : nat) (rows : list A) :
  map fst (combine (seq a (length rows)) rows) = seq a (length rows).
Proof.
  revert a. induction rows as [|x r IH]; intros a; simpl; [reflexivity|].
  rewrite IH. reflexivity.
Qed.

Lemma ascending_asTable (rows : list A) : ascending (asTable rows).
Proof.
  unfold ascending, indices, asTable. rewrite indices_combine_seq.
  apply StronglySorted_seq.
Qed.

Lemma ascending_filter (f : nat * A -> bool) (t : Table A) :
  ascending t -> ascending (filter f t).
Proof.
  unfold ascending, indices. induction t as [|x r IH]; simpl; intros Hs; [exact Hs|].
  apply StronglySorted_inv in Hs as [Hr Hx].
  destruct (f x); simpl; [|apply IH; exact Hr].
  constructor; [apply IH; exact Hr|].
  rewrite Forall_forall in *. intros i Hi. apply Hx.
  apply in_map_iff in Hi as [y [<- Hy]]. apply filter_In in Hy as [Hy _].
  apply in_map. exact Hy.
Qed.

Lemma ascending_NoDup (t : Table A) : ascending t -> NoDup (indices t).
Proof.
  unfold ascending. induction 1 as [|i l Hs IH Hi]; constructor; [|exact IH].
  intros Hin. rewrite Forall_forall in Hi. specialize (Hi _ Hin). lia.
Qed.

Lemma asTable_nth_error (rows : list A) (r : nat * A) :
  In r (asTable rows) -> nth_error rows (fst r) = Some (snd r).
Proof.
  unfold asTable. destruct r as [i x]; simpl.
  assert (Hgen : forall a, In (i, x) (combine (seq a (length rows)) rows) ->
                           a <= i /\ nth_error rows (i - a) = Some x).
  { induction rows as [|y r IH]; simpl; intros a Hin; [destruct Hin|].
    destruct Hin as [Heq | Hin].
    - injection Heq as <- <-. rewrite Nat.sub_diag. split; [lia | reflexivity].
    - apply IH in Hin as [Hle Hnth]. split; [lia|].
      replace (i - a) with (S (i - S a)) by lia. exact Hnth. }
  intros Hin. apply Hgen in Hin as [_ Hnth]. rewrite Nat.sub_0_r in Hnth. exact Hnth.
Qed.

Lemma sliceBy_In (key : A -> Z) (id : Z) (t : Table A) (r : nat * A) :
  In r (sliceBy key id t) <-> In r t /\ key (snd r) = id.
Proof.
  unfold sliceBy. rewrite filter_In, Z.eqb_eq. reflexivity.
Qed.

Lemma CombinationsStrictlyUpperIndexPolicy_cons (x : nat * A) (r : Table A) :
  CombinationsStrictlyUpperIndexPolicy (x :: r) (x :: r)
  = (map (pair x) r ++ CombinationsStrictlyUpperIndexPolicy r r)%list.
Proof.
  destruct r; reflexivity.
Qed.

Lemma CombinationsStrictlyUpperIndexPolicy_In (t : Table A) (a b : nat * A) :
  ascending t ->
  In (a, b) (CombinationsStrictlyUpperIndexPolicy t t)
  <-> In a t /\ In b t /\ fst a < fst b.
Proof.
  unfold ascending, indices. induction t as [|x r IH]; intros Hs.
  - simpl. tauto.
  - apply StronglySorted_inv in Hs as [Hr Hx].
    rewrite Forall_forall in Hx.
    assert (Hlt : forall y, In y r -> fst x < fst y)
      by (intros y Hy; apply Hx, in_map, Hy).
    rewrite CombinationsStrictlyUpperIndexPolicy_cons, in_app_iff, in_map_iff, (IH Hr).
    simpl. split.
    + intros [[y [Heq Hy]] | [Ha [Hb Hab]]].
      * injection Heq as <- <-. auto.
      * auto.
    + intros [[<- | Ha] [[<- | Hb] Hab]].
      * lia.
      * left. exists b. auto.
      * specialize (Hlt _ Ha). lia.
      * right. auto.
Qed.

Lemma index_pairs_In (t : Table A) (i j : nat) :
  ascending t ->
  In (i, j) (index_pairs (CombinationsStrictlyUpperIndexPolicy t t))
  <-> In i (indices t) /\ In j (indices t) /\ i < j.
Proof.
  intros Hs. unfold index_pairs, indices. rewrite in_map_iff. split.
  - intros [[a b] [Heq Hin]]. simpl in Heq. injection Heq as <- <-.
    apply CombinationsStrictlyUpperIndexPolicy_In in Hin as [Ha [Hb Hab]]; [|exact Hs].
    auto using in_map.
  - intros [Hi [Hj Hij]].
    apply in_map_iff in Hi as [a [<- Ha]]. apply in_map_iff in Hj as [b [<- Hb]].
    exists (a, b). split; [reflexivity|].
    apply CombinationsStrictlyUpperIndexPolicy_In; auto.
Qed.

Lemma index_pairs_NoDup (t : Table A) :
  ascending t -> NoDup (index_pairs (CombinationsStrictlyUpperIndexPolicy t t)).
Proof.
  induction t as [|x r IH]; intros Hs; [constructor|].
  assert (Hr : ascending r) by (apply StronglySorted_inv in Hs; apply Hs).
  pose proof (ascending_NoDup _ Hs) as Hnd. simpl in Hnd.
  rewrite CombinationsStrictlyUpperIndexPolicy_cons.
  unfold index_pairs. rewrite map_app, map_map. simpl.
  apply NoDup_app.
  - rewrite <- (map_map fst (pair (fst x))).
    apply Finite.Injective_map_NoDup; [intros i j Hij; congruence|].
    apply NoDup_cons_iff in Hnd. apply Hnd.
  - apply IH. exact Hr.
  - intros [i j] Hin1 Hin2.
    apply in_map_iff in Hin1 as [y [Heq Hy]]. injection Heq as <- <-.
    apply (index_pairs_In r _ _ Hr) in Hin2 as [Hi _].
    apply NoDup_cons_iff in Hnd. apply Hnd. exact Hi.
Qed.

End Tables.

Lemma NoDup_map_filter {B C : Type} (f : B -> C) (p : B -> bool) (l : list B) :
  NoDup (map f l) -> NoDup (map f (filter p l)).
Proof.
  induction l as [|x r IH]; simpl; intros Hnd; [exact Hnd|].
  apply NoDup_cons_iff in Hnd as [Hx Hr].
  destruct (p x); simpl; [|apply IH; exact Hr].
  constructor; [|apply IH; exact Hr].
  intros Hin. apply Hx. apply in_map_iff in Hin as [y [Hy Hin]].
  apply filter_In in Hin as [Hin _]. rewrite <- Hy. apply in_map. exact Hin.
Qed.

Section PairingFacts.
Context {G : Type} `{Candidate G}.
Local Open Scope nat_scope.

Lemma CombinationsFullIndexPolicy_In {A B : Type} (t1 : list A) (t2 : list B) (a : A) (b : B) :
  In (a, b) (CombinationsFullIndexPolicy t1 t2) <-> In a t1 /\ In b t2.
Proof.
  unfold CombinationsFullIndexPolicy. rewrite in_flat_map. split.
  - intros [x [Hx Hin]]. apply in_map_iff in Hin as [y [Heq Hy]].
    injection Heq as <- <-. auto.
  - intros [Ha Hb]. exists a. split; [exact Ha | apply in_map; exact Hb].
Qed.

(** A pair fill of the same-subsystem branch comes from the strictly upper
    combinations, under one cut of the first list. *)
Lemma SameEventPairing_pairs_same (pairtype : PairType) (t1 t2 : Table G)
    (cuts1 cuts2 : list (Cut G)) (path : list string) (g1 g2 : nat * G)
    (v : option Kinematics.Values) :
  same_subsystem pairtype = true ->
  In (FillND path g1 g2 v) (SameEventPairing_pairs pairtype t1 t2 cuts1 cuts2) ->
  In (g1, g2) (CombinationsStrictlyUpperIndexPolicy t1 t2)
  /\ exists cut, In cut cuts1 /\ path = pair_hist pairtype cut cut "hs_q_same"
                 /\ IsSelectedPair pairtype g1 g2 cut cut = true.
Proof.
  intros Hsym. unfold SameEventPairing_pairs. rewrite Hsym.
  intros Hin. apply in_flat_map in Hin as [cut [Hcut Hin]].
  apply in_flat_map in Hin as [[a b] [Hab Hin]].
  destruct (IsSelectedPair pairtype a b cut cut) eqn:Hsel; simpl in Hin;
    [|destruct Hin].
  destruct Hin as [Heq | []]. unfold fill_pair in Heq.
  injection Heq as <- <- <- _. split; [exact Hab|].
  exists cut. auto.
Qed.

(** Under one cut, the pair fills of the same-subsystem branch are the
    selected strictly upper combinations, each filled once. *)
Lemma SameEventPairing_pairs_one_cut (pairtype : PairType) (t1 t2 : Table G)
    (cut : Cut G) (cuts2 : list (Cut G)) :
  same_subsystem pairtype = true ->
  fill_index_pairs (SameEventPairing_pairs pairtype t1 t2 [cut] cuts2)
  = index_pairs
      (filter (fun g12 => IsSelectedPair pairtype (fst g12) (snd g12) cut cut)
         (CombinationsStrictlyUpperIndexPolicy t1 t2)).
Proof.
  intros Hsym. unfold SameEventPairing_pairs. rewrite Hsym. simpl. rewrite app_nil_r.
  induction (CombinationsStrictlyUpperIndexPolicy t1 t2) as [|[g1 g2] r IH];
    simpl; [reflexivity|].
  destruct (IsSelectedPair pairtype g1 g2 cut cut); simpl; rewrite IH; reflexivity.
Qed.

Lemma MixedEventPairing_pairs_In (pairtype : PairType) (t1 t2 : Table G)
    (cuts1 cuts2 : list (Cut G)) (path : list string) (g1 g2 : nat * G)
    (v : option Kinematics.Values) :
  In (FillND path g1 g2 v) (MixedEventPairing_pairs pairtype t1 t2 cuts1 cuts2) ->
  In g1 t1 /\ In g2 t2.
Proof.
  unfold MixedEventPairing_pairs. intros Hin.
  apply in_flat_map in Hin as [cut1 [Hcut1 Hin]].
  apply in_flat_map in Hin as [cut2 [Hcut2 Hin]].
  apply in_flat_map in Hin as [[a b] [Hab Hin]].
  apply CombinationsFullIndexPolicy_In in Hab.
  destruct (same_subsystem pairtype && negb (GetName cut1 =? GetName cut2)%string);
    [destruct Hin|].
  destruct (negb (IsSelectedPair pairtype a b cut1 cut2)); [destruct Hin|].
  destruct Hin as [Heq | []]. unfold fill_pair in Heq.
  injection Heq as _ <- <- _. exact Hab.
Qed.

Lemma MixedEventPairing_loop_In (pairtype : PairType) (ndepth : Z)
    (photons1 photons2 : Table G) (cuts1 cuts2 : list (Cut G))
    (pairs : list ((nat * Collision) * (nat * Collision))) (nev index_coll1 : Z)
    (cc : (nat * Collision) * (nat * Collision)) (fills : list (Fill G)) :
  In (cc, fills)
     (MixedEventPairing_loop pairtype ndepth photons1 photons2 cuts1 cuts2
        pairs nev index_coll1) ->
  In cc pairs
  /\ fills = MixedEventPairing_pairs pairtype
               (sliceBy photonCollisionId (collisionId (snd (fst cc))) photons1)
               (sliceBy photonCollisionId (collisionId (snd (snd cc))) photons2)
               cuts1 cuts2.
Proof.
  revert nev index_coll1.
  induction pairs as [|[c1 c2] rest IH]; intros nev index_coll1; simpl; [intros []|].
  destruct (_ >? ndepth)%Z.
  - intros Hin. apply IH in Hin. tauto.
  - destruct (MixedEventPairing_skip pairtype (snd c1) (snd c2)).
    + intros Hin. apply IH in Hin. tauto.
    + intros [Heq | Hin].
      * injection Heq as <- <-. simpl. auto.
      * apply IH in Hin. tauto.
Qed.

End PairingFacts.

Section SelfCombinations.
Context {A : Type}.
Local Open Scope nat_scope.

Lemma insert_binned_Permutation (x : Z * (nat * A)) (l : list (Z * (nat * A))) :
  Permutation (insert_binned x l) (x :: l).
Proof.
  induction l as [|y r IH]; simpl; [reflexivity|].
  destruct (binning_lt y x); [|reflexivity].
  rewrite IH. apply perm_swap.
Qed.

Lemma sort_binned_Permutation (l : list (Z * (nat * A))) :
  Permutation (fold_right insert_binned [] l) l.
Proof.
  induction l as [|x r IH]; simpl; [constructor|].
  rewrite insert_binned_Permutation. constructor. exact IH.
Qed.

Lemma groupTable_In (getBin : A -> Z) (outsider : Z) (t : Table A)
    (bin : Z) (r : nat * A) :
  In (bin, r) (groupTable getBin outsider t) ->
  In r t /\ bin = getBin (snd r) /\ bin <> outsider.
Proof.
  unfold groupTable. intros Hin.
  apply (Permutation_in _ (sort_binned_Permutation _)) in Hin.
  apply filter_In in Hin as [Hin Hout]. apply in_map_iff in Hin as [r' [Heq Hr]].
  injection Heq as <- <-. simpl in Hout.
  apply negb_true_iff, Z.eqb_neq in Hout. auto.
Qed.

Lemma groupTable_NoDup (getBin : A -> Z) (outsider : Z) (t : Table A) :
  NoDup (indices t) ->
  NoDup (map (fun x => fst (snd x)) (groupTable getBin outsider t)).
Proof.
  intros Hnd. unfold groupTable.
  eapply Permutation_NoDup.
  - apply Permutation_map. symmetry. apply sort_binned_Permutation.
  - apply NoDup_map_filter. rewrite map_map. simpl. exact Hnd.
Qed.

Lemma binning_lt_iff (x y : Z * (nat * A)) :
  binning_lt x y = true
  <-> (fst x < fst y)%Z \/ (fst x = fst y /\ fst (snd x) < fst (snd y)).
Proof.
  unfold binning_lt.
  rewrite orb_true_iff, andb_true_iff, Z.ltb_lt, Z.eqb_eq, Nat.ltb_lt. reflexivity.
Qed.

Lemma binned_le_iff (x y : Z * (nat * A)) :
  binned_le x y
  <-> (fst x < fst y)%Z \/ (fst x = fst y /\ fst (snd x) <= fst (snd y)).
Proof.
  unfold binned_le. rewrite <- not_true_iff_false, binning_lt_iff. lia.
Qed.

Lemma insert_binned_sorted (x : Z * (nat * A)) (l : list (Z * (nat * A))) :
  StronglySorted binned_le l -> StronglySorted binned_le (insert_binned x l).
Proof.
  induction l as [|y r IH]; simpl; intros Hs.
  - constructor; [constructor | constructor].
  - apply StronglySorted_inv in Hs as [Hr Hy].
    destruct (binning_lt y x) eqn:Hyx.
    + constructor; [apply IH; exact Hr|].
      apply Forall_forall. intros z Hz.
      apply (Permutation_in _ (insert_binned_Permutation x r)) in Hz.
      destruct Hz as [<- | Hz].
      * apply binning_lt_iff in Hyx. apply binned_le_iff. lia.
      * rewrite Forall_forall in Hy. apply Hy. exact Hz.
    + constructor; [constructor; assumption|].
      constructor; [exact Hyx|].
      rewrite Forall_forall in *. intros z Hz. specialize (Hy z Hz).
      apply binned_le_iff in Hy. apply binned_le_iff.
      assert (Hxy : binned_le x y) by exact Hyx.
      apply binned_le_iff in Hxy. lia.
Qed.

Lemma groupTable_sorted (getBin : A -> Z) (outsider : Z) (t : Table A) :
  StronglySorted binned_le (groupTable getBin outsider t).
Proof.
  unfold groupTable.
  induction (filter _ _) as [|x r IH]; simpl; [constructor|].
  apply insert_binned_sorted. exact IH.
Qed.

Lemma takeWhile_In {B : Type} (f : B -> bool) (l : list B) (x : B) :
  In x (takeWhile f l) -> In x l /\ f x = true.
Proof.
  induction l as [|y r IH]; simpl; [intros []|].
  destruct (f y) eqn:Hy; [|intros []].
  intros [<- | Hin]; [auto | apply IH in Hin; tauto].
Qed.

Lemma firstn_In {B : Type} (n : nat) (l : list B) (x : B) :
  In x (firstn n l) -> In x l.
Proof.
  revert l. induction n as [|n IH]; intros [|y r]; simpl; try tauto.
  intros [<- | Hin]; [auto | right; apply IH; exact Hin].
Qed.

Lemma partners_In (categoryNeighbours : nat) (bin : Z)
    (rest : list (Z * (nat * A))) (b : nat * A) :
  In b (partners categoryNeighbours bin rest) -> In (bin, b) rest.
Proof.
  unfold partners. intros Hin. apply in_map_iff in Hin as [[bin' b'] [Heq Hin]].
  simpl in Heq. subst b'. apply takeWhile_In in Hin as [Hin Hbin].
  simpl in Hbin. apply Z.eqb_eq in Hbin. subst bin'.
  eapply firstn_In. exact Hin.
Qed.

(** The anchor of a pair is a row of the grouped table. *)
Lemma block_strictly_upper_In_anchor (categoryNeighbours : nat)
    (grouped : list (Z * (nat * A))) (a b : nat * A) :
  In (a, b) (block_strictly_upper categoryNeighbours grouped) ->
  exists bin, In (bin, a) grouped.
Proof.
  induction grouped as [|[bin x] rest IH]; simpl; intros Hin; [destruct Hin|].
  apply in_app_iff in Hin as [Hin | Hin].
  - apply in_map_iff in Hin as [y [Heq _]]. injection Heq as <- _.
    exists bin. auto.
  - destruct (IH Hin) as [bin' Ha]. exists bin'. auto.
Qed.

(** The pairs of a sorted grouped table: both rows of one bin, the first of
    smaller index. *)
Lemma block_strictly_upper_In (categoryNeighbours : nat)
    (grouped : list (Z * (nat * A))) (a b : nat * A) :
  StronglySorted binned_le grouped ->
  NoDup (map (fun x => fst (snd x)) grouped) ->
  In (a, b) (block_strictly_upper categoryNeighbours grouped) ->
  fst a < fst b
  /\ exists bin, In (bin, a) grouped /\ In (bin, b) grouped.
Proof.
  induction grouped as [|[bin x] rest IH]; simpl; intros Hs Hnd Hin; [destruct Hin|].
  apply StronglySorted_inv in Hs as [Hsrest Hsx].
  apply NoDup_cons_iff in Hnd as [Hx Hrest].
  apply in_app_iff in Hin as [Hin | Hin].
  - apply in_map_iff in Hin as [y [Heq Hy]]. injection Heq as <- <-.
    apply partners_In in Hy. split.
    + rewrite Forall_forall in Hsx. specialize (Hsx _ Hy).
      apply binned_le_iff in Hsx. simpl in Hsx.
      assert (Hneq : fst x <> fst y).
      { intros Heq. apply Hx. simpl. rewrite Heq.
        exact (in_map (fun x => fst (snd x)) _ _ Hy). }
      lia.
    + exists bin. auto.
  - destruct (IH Hsrest Hrest Hin) as [Hab [bin' [Ha Hb]]]. split; [exact Hab|].
    exists bin'. auto.
Qed.

Lemma selfCombinations_In (getBin : A -> Z) (categoryNeighbours : nat)
    (outsider : Z) (t : Table A) (c1 c2 : nat * A) :
  NoDup (indices t) ->
  In (c1, c2) (selfCombinations getBin categoryNeighbours outsider t) ->
  In c1 t /\ In c2 t /\ fst c1 < fst c2 /\ getBin (snd c1) = getBin (snd c2).
Proof.
  unfold selfCombinations. intros Hnd Hin.
  apply block_strictly_upper_In in Hin as [Hlt [bin [H1 H2]]];
    [|apply groupTable_sorted|apply groupTable_NoDup; exact Hnd].
  apply groupTable_In in H1 as [H1 [Hb1 _]].
  apply groupTable_In in H2 as [H2 [Hb2 _]].
  repeat split; try assumption. congruence.
Qed.

End SelfCombinations.

(* ================================================================= *)
(** ** Distinct candidates, distinct collisions *)

Section Distinctness.
Context {G : Type} `{Candidate G}.
Local Open Scope nat_scope.

Lemma NoDup_collisionId_rows (collisions : list Collision) (c1 c2 : nat * Collision) :
  NoDup (map collisionId collisions) ->
  In c1 (asTable collisions) -> In c2 (asTable collisions) ->
  fst c1 <> fst c2 -> collisionId (snd c1) <> collisionId (snd c2).
Proof.
  intros Hnd H1 H2 Hneq Heq.
  apply asTable_nth_error in H1, H2.
  apply Hneq. apply (proj1 (NoDup_nth_error _) Hnd).
  - apply nth_error_Some. rewrite (map_nth_error collisionId _ _ H1). discriminate.
  - rewrite (map_nth_error collisionId _ _ H1), (map_nth_error collisionId _ _ H2).
    congruence.
Qed.

End Distinctness.

(* ================================================================= *)
(** ** The depth of event mixing *)

Section MixingDepth.
Context {G : Type} `{Candidate G}.
Variable pairtype : PairType.
Variable ndepth : Z.
Variables photons1 photons2 : Table G.
Variables cuts1 cuts2 : list (Cut G).

(** The first pair of an anchor sets the state as if the loop had started
    on that anchor. *)
Lemma MixedEventPairing_loop_enter (x y : nat * Collision)
    (rest : list ((nat * Collision) * (nat * Collision))) (nev index_coll1 : Z) :
  MixedEventPairing_loop pairtype ndepth photons1 photons2 cuts1 cuts2
    ((x, y) :: rest) nev index_coll1
  = MixedEventPairing_loop pairtype ndepth photons1 photons2 cuts1 cuts2
      ((x, y) :: rest)
      (if negb (index_coll1 =? collisionId (snd x))%Z then 0%Z else nev)
      (collisionId (snd x)).
Proof.
  simpl. rewrite Z.eqb_refl.
  destruct (index_coll1 =? collisionId (snd x))%Z eqn:Hid; simpl; [|reflexivity].
  apply Z.eqb_eq in Hid. rewrite Hid. reflexivity.
Qed.

(** Within the pairs of one anchor, at most [ndepth + 1 - nev] are recorded. *)
Lemma MixedEventPairing_loop_anchor (x : nat * Collision) (ps : list (nat * Collision))
    (rest : list ((nat * Collision) * (nat * Collision))) (nev : Z) :
  (0 <= nev)%Z ->
  exists out1 nev',
    MixedEventPairing_loop pairtype ndepth photons1 photons2 cuts1 cuts2
      (map (pair x) ps ++ rest)%list nev (collisionId (snd x))
    = (out1
       ++ MixedEventPairing_loop pairtype ndepth photons1 photons2 cuts1 cuts2
            rest nev' (collisionId (snd x)))%list
    /\ (Z.of_nat (length out1) <= Z.max 0 (ndepth + 1 - nev))%Z
    /\ (0 <= nev')%Z
    /\ Forall (fun r => fst (fst r) = x) out1.
Proof.
  revert nev. induction ps as [|y ps IH]; intros nev Hnev.
  - exists [], nev. simpl. repeat split; try lia. constructor.
  - simpl. rewrite Z.eqb_refl. simpl.
    destruct (nev >? ndepth)%Z eqn:Hdepth.
    + destruct (IH nev Hnev) as [out1 [nev' [Heq [Hlen [Hnev' Hall]]]]].
      exists out1, nev'. auto.
    + destruct (MixedEventPairing_skip pairtype (snd x) (snd y)).
      * destruct (IH nev Hnev) as [out1 [nev' [Heq [Hlen [Hnev' Hall]]]]].
        exists out1, nev'. auto.
      * destruct (IH (nev + 1)%Z ltac:(lia)) as [out1 [nev' [Heq [Hlen [Hnev' Hall]]]]].
        eexists (_ :: out1), nev'. rewrite Heq. simpl.
        split; [reflexivity|]. split; [|split; [exact Hnev'|]].
        -- assert (nev <= ndepth)%Z
             by (rewrite Z.gtb_ltb in Hdepth; apply Z.ltb_ge in Hdepth; exact Hdepth).
           lia.
        -- constructor; [reflexivity | exact Hall].
Qed.

Lemma MixedEventPairing_loop_block (x : nat * Collision) (ps : list (nat * Collision))
    (rest : list ((nat * Collision) * (nat * Collision))) (nev index_coll1 : Z) :
  (0 <= nev)%Z ->
  exists out1 nev' index',
    MixedEventPairing_loop pairtype ndepth photons1 photons2 cuts1 cuts2
      (map (pair x) ps ++ rest)%list nev index_coll1
    = (out1
       ++ MixedEventPairing_loop pairtype ndepth photons1 photons2 cuts1 cuts2
            rest nev' index')%list
    /\ (Z.of_nat (length out1) <= Z.max 0 (ndepth + 1))%Z
    /\ (0 <= nev')%Z
    /\ Forall (fun r => fst (fst r) = x) out1.
Proof.
  intros Hnev. destruct ps as [|y ps].
  - exists [], nev, index_coll1. simpl. repeat split; try lia. constructor.
  - change (map (pair x) (y :: ps) ++ rest)%list
      with ((x, y) :: (map (pair x) ps ++ rest))%list.
    rewrite MixedEventPairing_loop_enter.
    set (nev0 := if negb (index_coll1 =? collisionId (snd x))%Z then 0%Z else nev).
    assert (Hnev0 : (0 <= nev0)%Z) by (unfold nev0; destruct (negb _); lia).
    destruct (MixedEventPairing_loop_anchor x (y :: ps) rest nev0 Hnev0)
      as [out1 [nev' [Heq [Hlen [Hnev' Hall]]]]].
    exists out1, nev', (collisionId (snd x)).
    split; [exact Heq|]. split; [lia|]. split; assumption.
Qed.

Lemma records_of_anchor_app (anchor : nat)
    (l1 l2 : list (((nat * Collision) * (nat * Collision)) * list (Fill G))) :
  records_of_anchor anchor (l1 ++ l2)
  = (records_of_anchor anchor l1 ++ records_of_anchor anchor l2)%list.
Proof. apply filter_app. Qed.

Lemma records_of_anchor_nil (anchor : nat)
    (l : list (((nat * Collision) * (nat * Collision)) * list (Fill G))) :
  (forall r, In r l -> fst (fst (fst r)) <> anchor) ->
  records_of_anchor anchor l = [].
Proof.
  intros Hl. unfold records_of_anchor. induction l as [|r l IH]; simpl; [reflexivity|].
  destruct (Nat.eqb_spec (fst (fst (fst r))) anchor) as [Heq | Hneq].
  - exfalso. apply (Hl r); [left; reflexivity | exact Heq].
  - apply IH. intros r' Hr'. apply Hl. right. exact Hr'.
Qed.

(** Over the pairs of a grouped table, every anchor gets at most
    [ndepth + 1] records. *)
Lemma MixedEventPairing_loop_depth (categoryNeighbours : nat)
    (grouped : list (Z * (nat * Collision))) (nev index_coll1 : Z) (anchor : nat) :
  NoDup (map (fun x => fst (snd x)) grouped) ->
  (0 <= nev)%Z ->
  (Z.of_nat (length (records_of_anchor anchor
                       (MixedEventPairing_loop pairtype ndepth photons1 photons2 cuts1 cuts2
                          (block_strictly_upper categoryNeighbours grouped)
                          nev index_coll1)))
   <= Z.max 0 (ndepth + 1))%Z.
Proof.
  revert nev index_coll1.
  induction grouped as [|[bin x] rest IH]; intros nev index_coll1 Hnd Hnev.
  - simpl. lia.
  - apply NoDup_cons_iff in Hnd as [Hx Hrest]. simpl in Hx.
    simpl block_strictly_upper.
    destruct (MixedEventPairing_loop_block x (partners categoryNeighbours bin rest)
                (block_strictly_upper categoryNeighbours rest) nev index_coll1 Hnev)
      as [out1 [nev' [index' [Heq [Hlen [Hnev' Hall]]]]]].
    rewrite Heq, records_of_anchor_app, length_app.
    destruct (Nat.eq_dec (fst x) anchor) as [Ha | Ha].
    + rewrite (records_of_anchor_nil anchor
                 (MixedEventPairing_loop pairtype ndepth photons1 photons2 cuts1 cuts2
                    _ nev' index')).
      * simpl. rewrite Nat.add_0_r.
        pose proof (filter_length_le
                      (fun r : ((nat * Collision) * (nat * Collision)) * list (Fill G) =>
                         Nat.eqb (fst (fst (fst r))) anchor) out1) as Hle.
        unfold records_of_anchor. lia.
      * intros [[c1 c2] fills] Hin Hc1. simpl in Hc1.
        apply MixedEventPairing_loop_In in Hin as [Hin _].
        apply block_strictly_upper_In_anchor in Hin as [bin' Hin].
        apply Hx. rewrite Ha, <- Hc1.
        exact (in_map (fun x => fst (snd x)) _ _ Hin).
    + rewrite (records_of_anchor_nil anchor out1).
      * simpl. apply IH; assumption.
      * intros r Hr. rewrite Forall_forall in Hall. rewrite (Hall r Hr). exact Ha.
Qed.

End MixingDepth.

(** X10: for every anchor, [MixedEventPairing] records at most [ndepth + 1]
    pairs of collisions. *)
Lemma MixedEventPairing_depth_bound {G : Type} `{Candidate G}
    (pairtype : PairType) (task : PhotonHBT G) (collisions : list Collision)
    (photons1 photons2 : list G) (cuts1 cuts2 : list (Cut G)) (anchor : nat) :
  (Z.of_nat (length (records_of_anchor anchor
      (snd (process pairtype task collisions photons1 photons2 cuts1 cuts2))))
   <= Z.max 0 (ndepth task + 1))%Z.
Proof.
  unfold process; simpl. unfold MixedEventPairing, selfCombinations.
  apply MixedEventPairing_loop_depth; [|lia].
  apply groupTable_NoDup, ascending_NoDup, ascending_filter, ascending_asTable.
Qed.

(** C1: with the default depth 10 and an anchor collision that has fifteen
    partners in its mixing bin, [MixedEventPairing] pairs the anchor with
    eleven partners, the rows 1 to 11, and fills pairs from each of them: the
    guard [nev > ndepth] lets the counter values 0 to 10 through. *)
Theorem MixedEventPairing_depth_off_by_one :
  ndepth example_task = 10%Z
  /\ length (pairs_of_anchor 0
               (selfCombinations (colBinning example_task) 1000 (-1)
                  (MyFilteredCollisions (asTable sixteen_collisions)))) = 15%nat
  /\ partners_of_anchor 0
       (snd (processPCMPCM example_task sixteen_collisions sixteen_collisions_photons))
     = [1; 2; 3; 4; 5; 6; 7; 8; 9; 10; 11]%nat
  /\ fill_counts
       (records_of_anchor 0
          (snd (processPCMPCM example_task sixteen_collisions sixteen_collisions_photons)))
     = repeat 12%nat 11.
Proof.
  split; [reflexivity|]. split; [vm_compute; reflexivity|].
  split; vm_compute; reflexivity.
Qed.

(** C2: the gates of [MixedEventPairing] do not read the PHOS/CPV readout
    flag; for the pair type PCMPHOS and two collisions of one bin that both
    lack the flag, same-event pairing records nothing for either collision
    while event mixing pairs the two collisions and fills six pairs. *)
Theorem MixedEventPairing_ignores_readout :
  (forall pairtype b1 b2 c1 c2,
     MixedEventPairing_skip pairtype (set_readout b1 c1) (set_readout b2 c2)
     = MixedEventPairing_skip pairtype c1 c2)
  /\ (forall b c,
        collisionFilter_common (set_readout b c) = collisionFilter_common c
        /\ collisionFilter_subsys (set_readout b c) = collisionFilter_subsys c)
  /\ Forall (fun c => isPHOSCPVreadout c = false) two_collisions_no_readout
  /\ fill_counts
       (fst (processPCMPHOS example_task two_collisions_no_readout
               two_collisions_candidates two_collisions_candidates))
     = [0; 0]%nat
  /\ map (fun r => (fst (fst (fst r)), fst (snd (fst r))))
       (snd (processPCMPHOS example_task two_collisions_no_readout
               two_collisions_candidates two_collisions_candidates))
     = [(0, 1)]%nat
  /\ fill_counts
       (snd (processPCMPHOS example_task two_collisions_no_readout
               two_collisions_candidates two_collisions_candidates))
     = [6]%nat.
Proof.
  split; [intros pairtype b1 b2 c1 c2; destruct pairtype; reflexivity|].
  split; [intros b c; split; reflexivity|].
  split; [repeat constructor|].
  split; [vm_compute; reflexivity|].
  split; vm_compute; reflexivity.
Qed.

(* ================================================================= *)
(** ** Closed forms of the kinematic values *)

Section KinematicsClosedForms.
Import Kinematics.
Local Open Scope R_scope.

Lemma sinh_opp (x : R) : sinh (- x) = - sinh x.
Proof.
  unfold sinh. rewrite Ropp_involutive. field.
Qed.

Lemma sinh_inj (x y : R) : sinh x = sinh y -> x = y.
Proof.
  intros Heq. destruct (Rtotal_order x y) as [Hlt | [Heq' | Hgt]]; [|exact Heq'|].
  - apply sinh_lt in Hlt. lra.
  - apply sinh_lt in Hgt. lra.
Qed.

Lemma cosh_minus (x y : R) : cosh (x - y) = cosh x * cosh y - sinh x * sinh y.
Proof.
  unfold cosh, sinh, Rminus.
  replace (- (x + - y)) with (- x + y) by ring.
  rewrite !exp_plus. field.
Qed.

(** The energy of a massless vector is its momentum. *)
Lemma E_massless (pt eta phi : R) :
  E (PtEtaPhiMVector pt eta phi 0) = Rabs pt * cosh eta.
Proof.
  unfold PtEtaPhiMVector; simpl.
  replace (pt * cosh eta * (pt * cosh eta) + 0 * 0) with (Rsqr (pt * cosh eta))
    by (unfold Rsqr; ring).
  rewrite sqrt_Rsqr_abs, Rabs_mult. f_equal.
  apply Rabs_pos_eq. left. apply cosh_pos.
Qed.

(** The squared mass of the difference of two massless vectors. *)
Lemma M2_q12 (pt1 eta1 phi1 pt2 eta2 phi2 : R) :
  M2 (q12 pt1 eta1 phi1 pt2 eta2 phi2)
  = - (2 * (Rabs pt1 * Rabs pt2 * (cosh eta1 * cosh eta2)
            - pt1 * pt2 * (cos (phi1 - phi2) + sinh eta1 * sinh eta2))).
Proof.
  unfold M2, q12, lv_minus. cbv [Px Py Pz E].
  fold (E (PtEtaPhiMVector pt1 eta1 phi1 0)). fold (E (PtEtaPhiMVector pt2 eta2 phi2 0)).
  rewrite !E_massless. unfold PtEtaPhiMVector. cbv [Px Py Pz].
  rewrite cos_minus.
  pose proof (sin_cos_square phi1) as Ht1. pose proof (sin_cos_square phi2) as Ht2.
  pose proof (cosh_sinh_square eta1) as Hh1. pose proof (cosh_sinh_square eta2) as Hh2.
  assert (Ha1 : Rabs pt1 * Rabs pt1 = pt1 * pt1)
    by (rewrite <- Rabs_mult; apply Rabs_pos_eq; nra).
  assert (Ha2 : Rabs pt2 * Rabs pt2 = pt2 * pt2)
    by (rewrite <- Rabs_mult; apply Rabs_pos_eq; nra).
  nra.
Qed.

Lemma cosh_ge_1 (x : R) : 1 <= cosh x.
Proof.
  unfold cosh. pose proof (exp_pos x) as Ha. pose proof (exp_pos (- x)) as Hb.
  assert (Hab : exp x * exp (- x) = 1).
  { rewrite <- exp_plus. replace (x + - x) with 0 by ring. apply exp_0. }
  pose proof (Rle_0_sqr (exp x - exp (- x))) as Hsq. unfold Rsqr in Hsq.
  assert (Hsq2 : 4 <= (exp x + exp (- x)) * (exp x + exp (- x))) by lra.
  assert (Hsum : 2 <= exp x + exp (- x)).
  { destruct (Rle_lt_dec 2 (exp x + exp (- x))) as [Hle | Hlt]; [exact Hle|].
    assert (0 < (2 - (exp x + exp (- x))) * (2 + (exp x + exp (- x))))
      by (apply Rmult_lt_0_compat; lra).
    nra. }
  lra.
Qed.

Lemma cosh_plus (x y : R) : cosh (x + y) = cosh x * cosh y + sinh x * sinh y.
Proof.
  replace (x + y) with (x - - y) by ring.
  rewrite cosh_minus, sinh_opp.
  replace (cosh (- y)) with (cosh y)
    by (unfold cosh; rewrite Ropp_involutive; field).
  ring.
Qed.

(** The difference of two massless vectors is never time-like. *)
Lemma M2_q12_nonpos (pt1 eta1 phi1 pt2 eta2 phi2 : R) :
  M2 (q12 pt1 eta1 phi1 pt2 eta2 phi2) <= 0.
Proof.
  rewrite M2_q12.
  pose proof (COS_bound (phi1 - phi2)) as [Hc1 Hc2].
  pose proof (cosh_ge_1 (eta1 - eta2)) as Hm. rewrite cosh_minus in Hm.
  pose proof (cosh_ge_1 (eta1 + eta2)) as Hp. rewrite cosh_plus in Hp.
  pose proof (Rabs_pos pt1) as Ha1. pose proof (Rabs_pos pt2) as Ha2.
  assert (HA : 0 <= Rabs pt1 * Rabs pt2) by nra.
  assert (Hle : pt1 * pt2 <= Rabs pt1 * Rabs pt2)
    by (rewrite <- Rabs_mult; apply Rle_abs).
  assert (Hge : - (Rabs pt1 * Rabs pt2) <= pt1 * pt2).
  { rewrite <- Rabs_mult. pose proof (Rle_abs (- (pt1 * pt2))) as Hopp.
    rewrite Rabs_Ropp in Hopp. lra. }
  set (A := Rabs pt1 * Rabs pt2) in *. set (p := pt1 * pt2) in *.
  set (C := cosh eta1 * cosh eta2) in *.
  set (X := cos (phi1 - phi2) + sinh eta1 * sinh eta2).
  assert (HX1 : X <= C) by (unfold X; lra).
  assert (HX2 : - C <= X) by (unfold X; lra).
  assert (H1 : 0 <= (A - p) * (C + X)) by (apply Rmult_le_pos; lra).
  assert (H2 : 0 <= (A + p) * (C - X)) by (apply Rmult_le_pos; lra).
  nra.
Qed.

(** [qinv = -q12.M()] is the square root of minus the squared mass. *)
Lemma qinv_sqrt (pt1 eta1 phi1 pt2 eta2 phi2 : R) :
  - M (q12 pt1 eta1 phi1 pt2 eta2 phi2)
  = sqrt (- M2 (q12 pt1 eta1 phi1 pt2 eta2 phi2)).
Proof.
  pose proof (M2_q12_nonpos pt1 eta1 phi1 pt2 eta2 phi2) as Hle.
  unfold M. destruct (Rle_dec 0 (M2 _)) as [Hge | Hlt].
  - replace (M2 (q12 pt1 eta1 phi1 pt2 eta2 phi2)) with 0 by lra.
    rewrite Ropp_0, sqrt_0. ring.
  - ring.
Qed.

(** The block yields values when the half-sum has a component along x. *)
Lemma KinematicTransform_Some_Px (pt1 eta1 phi1 pt2 eta2 phi2 : R) :
  Px (k12 pt1 eta1 phi1 pt2 eta2 phi2) <> 0 ->
  exists v, KinematicTransform pt1 eta1 phi1 pt2 eta2 phi2 = Some v.
Proof.
  intros Hx. unfold KinematicTransform.
  rewrite xyz_div_Some; [eexists; reflexivity|].
  set (k := k12 pt1 eta1 phi1 pt2 eta2 phi2) in *.
  intros Hp. unfold P in Hp.
  pose proof (Rle_0_sqr (Px k)) as H1. pose proof (Rle_0_sqr (Py k)) as H2.
  pose proof (Rle_0_sqr (Pz k)) as H3. unfold Rsqr in H1, H2, H3.
  apply sqrt_eq_0 in Hp; [|lra].
  assert (Hsq : Px k * Px k = 0) by lra.
  apply Rmult_integral in Hsq. tauto.
Qed.

(** Two candidates of different [pt] and [eta]: the block yields values. *)
Lemma KinematicTransform_two_candidates :
  exists v, KinematicTransform 1 0 0 2 1 0 = Some v.
Proof.
  apply KinematicTransform_Some_Px.
  unfold k12, lv_scale, lv_plus, PtEtaPhiMVector. cbv [Px].
  rewrite cos_0. lra.
Qed.

(** X1: for two candidates of positive [pt], whenever the kinematic block
    yields values, the square of [qinv] is
    [2 pt1 pt2 (cosh (eta1 - eta2) - cos (phi1 - phi2))], the squared
    invariant mass of the pair of massless particles. *)
Theorem KinematicTransform_qinv (pt1 eta1 phi1 pt2 eta2 phi2 : R) :
  0 < pt1 -> 0 < pt2 ->
  match KinematicTransform pt1 eta1 phi1 pt2 eta2 phi2 with
  | Some v =>
      qinv v * qinv v
      = 2 * pt1 * pt2 * (cosh (eta1 - eta2) - cos (phi1 - phi2))
  | None => True
  end.
Proof.
  intros H1 H2. unfold KinematicTransform.
  destruct (xyz_div _ _); [|exact I]. cbv [qinv].
  rewrite qinv_sqrt.
  rewrite sqrt_sqrt
    by (pose proof (M2_q12_nonpos pt1 eta1 phi1 pt2 eta2 phi2); lra).
  rewrite M2_q12, cosh_minus, !Rabs_pos_eq by lra. ring.
Qed.

(** X1 at two candidates of [pt] 1 and 2 and [eta] 0 and 1. *)
Lemma KinematicTransform_qinv_witness :
  0 < 1 /\ 0 < 2
  /\ exists v, KinematicTransform 1 0 0 2 1 0 = Some v
       /\ qinv v * qinv v = 2 * 1 * 2 * (cosh (0 - 1) - cos (0 - 0)).
Proof.
  assert (H1 : 0 < 1) by lra. assert (H2 : 0 < 2) by lra.
  split; [exact H1|]. split; [exact H2|].
  pose proof (KinematicTransform_qinv 1 0 0 2 1 0 H1 H2) as Hq.
  destruct KinematicTransform_two_candidates as [v Hv].
  rewrite Hv in Hq. exists v. split; [exact Hv | exact Hq].
Defined.

(** X2: whenever the kinematic block yields values, [kt] is half the
    transverse momentum of the pair,
    [sqrt (pt1^2 + pt2^2 + 2 pt1 pt2 cos (phi1 - phi2)) / 2]. *)
Theorem KinematicTransform_kt (pt1 eta1 phi1 pt2 eta2 phi2 : R) :
  match KinematicTransform pt1 eta1 phi1 pt2 eta2 phi2 with
  | Some v =>
      kt v = sqrt (pt1 * pt1 + pt2 * pt2 + 2 * pt1 * pt2 * cos (phi1 - phi2)) / 2
  | None => True
  end.
Proof.
  unfold KinematicTransform. destruct (xyz_div _ _); [|exact I]. cbv [kt].
  set (S := pt1 * pt1 + pt2 * pt2 + 2 * pt1 * pt2 * cos (phi1 - phi2)).
  unfold Pt, k12, lv_scale, lv_plus, PtEtaPhiMVector. cbv [Px Py].
  replace (1 / 2 * (pt1 * cos phi1 + pt2 * cos phi2)
           * (1 / 2 * (pt1 * cos phi1 + pt2 * cos phi2))
           + 1 / 2 * (pt1 * sin phi1 + pt2 * sin phi2)
             * (1 / 2 * (pt1 * sin phi1 + pt2 * sin phi2)))
    with ((1 / 2) * (1 / 2) * S).
  - rewrite sqrt_mult_alt by lra. rewrite sqrt_square by lra. field.
  - unfold S. rewrite cos_minus.
    pose proof (sin_cos_square phi1). pose proof (sin_cos_square phi2). nra.
Qed.

(** X4: for two candidates of positive [pt], the kinematic block is
    undefined exactly when the candidates are back to back with equal
    momenta: equal [pt], opposite [eta], and [cos (phi1 - phi2) = -1]. *)
Theorem KinematicTransform_undefined_iff (pt1 eta1 phi1 pt2 eta2 phi2 : R) :
  0 < pt1 -> 0 < pt2 ->
  (KinematicTransform pt1 eta1 phi1 pt2 eta2 phi2 = None
   <-> pt1 = pt2 /\ eta1 = - eta2 /\ cos (phi1 - phi2) = -1).
Proof.
  intros H1 H2.
  pose proof (sin_cos_square phi1) as Ht1. pose proof (sin_cos_square phi2) as Ht2.
  set (kx := pt1 * cos phi1 + pt2 * cos phi2).
  set (ky := pt1 * sin phi1 + pt2 * sin phi2).
  set (kz := pt1 * sinh eta1 + pt2 * sinh eta2).
  assert (HP : P (k12 pt1 eta1 phi1 pt2 eta2 phi2)
               = sqrt ((1 / 2) * (1 / 2) * (kx * kx + ky * ky + kz * kz))).
  { unfold P, k12, lv_scale, lv_plus, PtEtaPhiMVector. cbv [Px Py Pz].
    f_equal. unfold kx, ky, kz. ring. }
  assert (Hnone : KinematicTransform pt1 eta1 phi1 pt2 eta2 phi2 = None
                  <-> kx = 0 /\ ky = 0 /\ kz = 0).
  { unfold KinematicTransform, xyz_div.
    destruct (Req_EM_T (P (k12 pt1 eta1 phi1 pt2 eta2 phi2)) 0) as [Hz | Hnz].
    - split; [intros _ | reflexivity].
      rewrite HP in Hz. apply sqrt_eq_0 in Hz; nra.
    - split; [discriminate|]. intros [Hx [Hy Hz]]. exfalso. apply Hnz.
      rewrite HP, Hx, Hy, Hz.
      replace (1 / 2 * (1 / 2) * (0 * 0 + 0 * 0 + 0 * 0)) with 0 by ring.
      apply sqrt_0. }
  rewrite Hnone, cos_minus. unfold kx, ky, kz. split.
  - intros [Hx [Hy Hz]].
    assert (Hcx : pt1 * cos phi1 = - (pt2 * cos phi2)) by lra.
    assert (Hcy : pt1 * sin phi1 = - (pt2 * sin phi2)) by lra.
    assert (Hsq : pt1 * pt1 = pt2 * pt2).
    { transitivity (pt1 * cos phi1 * (pt1 * cos phi1)
                    + pt1 * sin phi1 * (pt1 * sin phi1)).
      - transitivity (pt1 * pt1 * (cos phi1 * cos phi1 + sin phi1 * sin phi1));
          [rewrite Ht1; ring | ring].
      - rewrite Hcx, Hcy.
        transitivity (pt2 * pt2 * (cos phi2 * cos phi2 + sin phi2 * sin phi2));
          [ring | rewrite Ht2; ring]. }
    assert (Hpt : pt1 = pt2) by nra.
    subst pt2. split; [reflexivity|].
    assert (Hc : cos phi1 = - cos phi2) by nra.
    assert (Hs : sin phi1 = - sin phi2) by nra.
    split.
    + apply sinh_inj. rewrite sinh_opp. nra.
    + rewrite Hc, Hs.
      transitivity (- (cos phi2 * cos phi2 + sin phi2 * sin phi2));
        [ring | rewrite Ht2; ring].
  - intros [Hpt [Heta Hphi]]. subst pt2 eta1. rewrite sinh_opp.
    assert (Hsum : (cos phi1 + cos phi2) * (cos phi1 + cos phi2)
                   + (sin phi1 + sin phi2) * (sin phi1 + sin phi2) = 0).
    { transitivity ((cos phi1 * cos phi1 + sin phi1 * sin phi1)
                    + (cos phi2 * cos phi2 + sin phi2 * sin phi2)
                    + 2 * (cos phi1 * cos phi2 + sin phi1 * sin phi2)); [ring|].
      rewrite Ht1, Ht2, Hphi. ring. }
    destruct (Rplus_sqr_eq_0 _ _ Hsum) as [Hc Hs].
    repeat split.
    + transitivity (pt1 * (cos phi1 + cos phi2)); [ring | rewrite Hc; ring].
    + transitivity (pt1 * (sin phi1 + sin phi2)); [ring | rewrite Hs; ring].
    + ring.
Qed.

(** X4 at two candidates of [pt = 1] and [eta = 0] at the azimuths [0] and
    [PI]: they are back to back, and the block is undefined. *)
Lemma KinematicTransform_undefined_iff_witness :
  0 < 1 /\ 0 < 1
  /\ (1 = 1 /\ 0 = - 0 /\ cos (0 - PI) = -1)
  /\ KinematicTransform 1 0 0 1 0 PI = None.
Proof.
  assert (H1 : 0 < 1) by lra.
  assert (Hback : 1 = 1 /\ 0 = - 0 /\ cos (0 - PI) = -1).
  { split; [reflexivity|]. split; [ring|].
    replace (0 - PI) with (- PI) by ring. rewrite cos_neg. apply cos_PI. }
  split; [exact H1|]. split; [exact H1|]. split; [exact Hback|].
  exact (proj2 (KinematicTransform_undefined_iff 1 0 0 1 0 PI H1 H1) Hback).
Defined.

(** X3: for two candidates of positive [pt], whenever the kinematic block
    yields values, [qlong] is the difference of the longitudinal momenta,
    [qout] times the pair momentum [k12.P()] is half the difference of the
    squared momenta, and [qside] times [k12.P()] is
    [pt1 pt2 sin (phi2 - phi1)]. *)
Theorem KinematicTransform_components (pt1 eta1 phi1 pt2 eta2 phi2 : R) :
  0 < pt1 -> 0 < pt2 ->
  match KinematicTransform pt1 eta1 phi1 pt2 eta2 phi2 with
  | Some v =>
      qlong v = pt1 * sinh eta1 - pt2 * sinh eta2
      /\ qout v * P (k12 pt1 eta1 phi1 pt2 eta2 phi2)
         = ((pt1 * cosh eta1) * (pt1 * cosh eta1)
            - (pt2 * cosh eta2) * (pt2 * cosh eta2)) / 2
      /\ qside v * P (k12 pt1 eta1 phi1 pt2 eta2 phi2)
         = pt1 * pt2 * sin (phi2 - phi1)
  | None => True
  end.
Proof.
  intros _ _. unfold KinematicTransform, xyz_div.
  destruct (Req_EM_T (P (k12 pt1 eta1 phi1 pt2 eta2 phi2)) 0) as [Hz | Hnz];
    [exact I|].
  set (p := P (k12 pt1 eta1 phi1 pt2 eta2 phi2)) in *.
  cbv [qlong qout qside].
  unfold Dot, Cross, Vect, q12, k12, lv_minus, lv_scale, lv_plus, PtEtaPhiMVector.
  cbv [X Y Z Px Py Pz].
  pose proof (sin_cos_square phi1) as Ht1. pose proof (sin_cos_square phi2) as Ht2.
  pose proof (cosh_sinh_square eta1) as Hh1. pose proof (cosh_sinh_square eta2) as Hh2.
  split; [ring|]. split.
  - transitivity
      (((pt1 * pt1 * (cos phi1 * cos phi1 + sin phi1 * sin phi1)
         + pt1 * pt1 * (sinh eta1 * sinh eta1))
        - (pt2 * pt2 * (cos phi2 * cos phi2 + sin phi2 * sin phi2)
           + pt2 * pt2 * (sinh eta2 * sinh eta2))) / 2);
      [field; exact Hnz|].
    rewrite Ht1, Ht2.
    replace (sinh eta1 * sinh eta1) with (cosh eta1 * cosh eta1 - 1) by lra.
    replace (sinh eta2 * sinh eta2) with (cosh eta2 * cosh eta2 - 1) by lra.
    field.
  - rewrite sin_minus. field. exact Hnz.
Qed.

(** X3 at two candidates of [pt] 1 and 2 and [eta] 0 and 1. *)
Lemma KinematicTransform_components_witness :
  0 < 1 /\ 0 < 2
  /\ exists v, KinematicTransform 1 0 0 2 1 0 = Some v
       /\ qlong v = 1 * sinh 0 - 2 * sinh 1
       /\ qout v * P (k12 1 0 0 2 1 0)
          = ((1 * cosh 0) * (1 * cosh 0) - (2 * cosh 1) * (2 * cosh 1)) / 2
       /\ qside v * P (k12 1 0 0 2 1 0) = 1 * 2 * sin (0 - 0).
Proof.
  assert (H1 : 0 < 1) by lra. assert (H2 : 0 < 2) by lra.
  split; [exact H1|]. split; [exact H2|].
  pose proof (KinematicTransform_components 1 0 0 2 1 0 H1 H2) as Hq.
  destruct KinematicTransform_two_candidates as [v Hv].
  rewrite Hv in Hq. exists v. split; [exact Hv | exact Hq].
Defined.

End KinematicsClosedForms.

(* ================================================================= *)
(** ** Which pairs are filled *)

Section FilledPairs.
Context {G : Type} `{Candidate G}.
Local Open Scope nat_scope.

(** The pair fills of the two branches of [SameEventPairing]. *)
Lemma SameEventPairing_pairs_iff (pairtype : PairType) (t1 t2 : Table G)
    (cuts1 cuts2 : list (Cut G)) (path : list string) (g1 g2 : nat * G)
    (v : option Kinematics.Values) :
  In (FillND path g1 g2 v) (SameEventPairing_pairs pairtype t1 t2 cuts1 cuts2)
  <-> v = pair_values g1 g2
      /\ if same_subsystem pairtype
         then In (g1, g2) (CombinationsStrictlyUpperIndexPolicy t1 t2)
              /\ exists cut, In cut cuts1
                   /\ IsSelectedPair pairtype g1 g2 cut cut = true
                   /\ path = pair_hist pairtype cut cut "hs_q_same"
         else In g1 t1 /\ In g2 t2
              /\ exists cut1 cut2, In cut1 cuts1 /\ In cut2 cuts2
                   /\ IsSelectedPair pairtype g1 g2 cut1 cut2 = true
                   /\ path = pair_hist pairtype cut1 cut2 "hs_q_same".
Proof.
  unfold SameEventPairing_pairs. destruct (same_subsystem pairtype).
  - rewrite in_flat_map. split.
    + intros [cut [Hcut Hin]]. apply in_flat_map in Hin as [[a b] [Hab Hin]].
      destruct (IsSelectedPair pairtype a b cut cut) eqn:Hsel; simpl in Hin;
        [|destruct Hin].
      destruct Hin as [Heq | []]. unfold fill_pair in Heq.
      injection Heq as <- <- <- <-. split; [reflexivity|]. split; [exact Hab|].
      exists cut. auto.
    + intros [-> [Hab [cut [Hcut [Hsel ->]]]]]. exists cut. split; [exact Hcut|].
      apply in_flat_map. exists (g1, g2). split; [exact Hab|].
      rewrite Hsel. simpl. left. reflexivity.
  - rewrite in_flat_map. split.
    + intros [cut1 [Hcut1 Hin]]. apply in_flat_map in Hin as [cut2 [Hcut2 Hin]].
      apply in_flat_map in Hin as [[a b] [Hab Hin]].
      apply CombinationsFullIndexPolicy_In in Hab.
      destruct (IsSelectedPair pairtype a b cut1 cut2) eqn:Hsel; simpl in Hin;
        [|destruct Hin].
      destruct Hin as [Heq | []]. unfold fill_pair in Heq.
      injection Heq as <- <- <- <-. split; [reflexivity|].
      split; [apply Hab|]. split; [apply Hab|]. exists cut1, cut2. auto.
    + intros [-> [Hg1 [Hg2 [cut1 [cut2 [Hcut1 [Hcut2 [Hsel ->]]]]]]]].
      exists cut1. split; [exact Hcut1|]. apply in_flat_map.
      exists cut2. split; [exact Hcut2|]. apply in_flat_map.
      exists (g1, g2). split; [apply CombinationsFullIndexPolicy_In; auto|].
      rewrite Hsel. simpl. left. reflexivity.
Qed.

(** The pair fills of the body of the collision loop. *)
Lemma SameEventPairing_body_pairs (pairtype : PairType) (t1 t2 : Table G)
    (cuts1 cuts2 : list (Cut G)) (collision : nat * Collision)
    (path : list string) (g1 g2 : nat * G) (v : option Kinematics.Values) :
  In (FillND path g1 g2 v)
     (SameEventPairing_body pairtype t1 t2 cuts1 cuts2 collision)
  <-> snd (SameEventPairing_gates (G:=G) pairtype (snd collision)) = true
      /\ In (FillND path g1 g2 v)
            (SameEventPairing_pairs pairtype
               (sliceBy photonCollisionId (collisionId (snd collision)) t1)
               (sliceBy photonCollisionId (collisionId (snd collision)) t2)
               cuts1 cuts2).
Proof.
  unfold SameEventPairing_body.
  pose proof (SameEventPairing_gates_Fill1D (G:=G) pairtype (snd collision)
                path g1 g2 v) as Hgate.
  destruct (SameEventPairing_gates pairtype (snd collision)) as [fills accepted].
  simpl in *. destruct accepted.
  - rewrite in_app_iff. tauto.
  - split; [contradiction | intros [Hacc _]; discriminate].
Qed.

Lemma SameEventPairing_body_same_subsystem (pairtype : PairType) (photons : list G)
    (cuts1 cuts2 : list (Cut G)) (collision : nat * Collision)
    (path : list string) (g1 g2 : nat * G) (v : option Kinematics.Values) :
  same_subsystem pairtype = true ->
  In (FillND path g1 g2 v)
     (SameEventPairing_body pairtype (asTable photons) (asTable photons)
        cuts1 cuts2 collision)
  <-> snd (SameEventPairing_gates (G:=G) pairtype (snd collision)) = true
      /\ In g1 (asTable photons) /\ In g2 (asTable photons)
      /\ photonCollisionId (snd g1) = collisionId (snd collision)
      /\ photonCollisionId (snd g2) = collisionId (snd collision)
      /\ fst g1 < fst g2
      /\ v = pair_values g1 g2
      /\ exists cut, In cut cuts1
           /\ IsSelectedPair pairtype g1 g2 cut cut = true
           /\ path = pair_hist pairtype cut cut "hs_q_same".
Proof.
  intros Hsym.
  rewrite SameEventPairing_body_pairs, SameEventPairing_pairs_iff, Hsym.
  rewrite CombinationsStrictlyUpperIndexPolicy_In
    by (apply ascending_filter, ascending_asTable).
  rewrite !sliceBy_In. tauto.
Qed.

Lemma SameEventPairing_body_two_subsystems (pairtype : PairType)
    (photons1 photons2 : list G) (cuts1 cuts2 : list (Cut G))
    (collision : nat * Collision)
    (path : list string) (g1 g2 : nat * G) (v : option Kinematics.Values) :
  same_subsystem pairtype = false ->
  In (FillND path g1 g2 v)
     (SameEventPairing_body pairtype (asTable photons1) (asTable photons2)
        cuts1 cuts2 collision)
  <-> snd (SameEventPairing_gates (G:=G) pairtype (snd collision)) = true
      /\ In g1 (asTable photons1) /\ In g2 (asTable photons2)
      /\ photonCollisionId (snd g1) = collisionId (snd collision)
      /\ photonCollisionId (snd g2) = collisionId (snd collision)
      /\ v = pair_values g1 g2
      /\ exists cut1 cut2, In cut1 cuts1 /\ In cut2 cuts2
           /\ IsSelectedPair pairtype g1 g2 cut1 cut2 = true
           /\ path = pair_hist pairtype cut1 cut2 "hs_q_same".
Proof.
  intros Hsym.
  rewrite SameEventPairing_body_pairs, SameEventPairing_pairs_iff, Hsym.
  rewrite !sliceBy_In. tauto.
Qed.

(** X5: same-event pairing of one subsystem ([processPCMPCM],
    [processPHOSPHOS]): in the record of a collision, a pair is filled exactly
    when the collision passes the event gates, the two candidates are rows of
    the collision with the first of smaller index, and both pass one cut of
    the list; it is filled with the values of the kinematic block into
    [hs_q_same] of that cut. *)
Theorem same_event_fills_one_subsystem (task : PhotonHBT G)
    (collisions : list Collision) (v0photons phosclusters : list G) :
  Forall (fun record =>
    forall path g1 g2 v,
      In (FillND path g1 g2 v) (snd record)
      <-> snd (SameEventPairing_gates (G:=G) kPCMPCM (snd (fst record))) = true
          /\ In g1 (asTable v0photons) /\ In g2 (asTable v0photons)
          /\ photonCollisionId (snd g1) = collisionId (snd (fst record))
          /\ photonCollisionId (snd g2) = collisionId (snd (fst record))
          /\ fst g1 < fst g2
          /\ v = pair_values g1 g2
          /\ exists cut, In cut (fPCMCuts task)
               /\ IsSelectedPair kPCMPCM g1 g2 cut cut = true
               /\ path = pair_hist kPCMPCM cut cut "hs_q_same")
    (fst (processPCMPCM task collisions v0photons))
  /\ Forall (fun record =>
       forall path g1 g2 v,
         In (FillND path g1 g2 v) (snd record)
         <-> snd (SameEventPairing_gates (G:=G) kPHOSPHOS (snd (fst record))) = true
             /\ In g1 (asTable phosclusters) /\ In g2 (asTable phosclusters)
             /\ photonCollisionId (snd g1) = collisionId (snd (fst record))
             /\ photonCollisionId (snd g2) = collisionId (snd (fst record))
             /\ fst g1 < fst g2
             /\ v = pair_values g1 g2
             /\ exists cut, In cut (fPHOSCuts task)
                  /\ IsSelectedPair kPHOSPHOS g1 g2 cut cut = true
                  /\ path = pair_hist kPHOSPHOS cut cut "hs_q_same")
       (fst (processPHOSPHOS task collisions phosclusters)).
Proof.
  split; apply Forall_forall; intros record Hrec.
  - unfold processPCMPCM, process in Hrec. simpl in Hrec.
    apply in_map_iff in Hrec as [collision [<- _]]. simpl.
    intros path g1 g2 v. apply SameEventPairing_body_same_subsystem. reflexivity.
  - unfold processPHOSPHOS, process in Hrec. simpl in Hrec.
    apply in_map_iff in Hrec as [collision [<- _]]. simpl.
    intros path g1 g2 v. apply SameEventPairing_body_same_subsystem. reflexivity.
Qed.

(** X6: same-event pairing of two subsystems ([processPCMPHOS]): in the record of a collision, a
    pair is filled exactly when the collision passes the event gates, the
    first candidate is a V0 photon of the collision, the second a PHOS
    cluster of it, and they pass a PCM cut and a PHOS cut; every such pair of
    candidates is filled under every such pair of cuts. *)
Theorem processPCMPHOS_same_event_fills (task : PhotonHBT G)
    (collisions : list Collision) (v0photons phosclusters : list G) :
  Forall (fun record =>
    forall path g1 g2 v,
      In (FillND path g1 g2 v) (snd record)
      <-> snd (SameEventPairing_gates (G:=G) kPCMPHOS (snd (fst record))) = true
          /\ In g1 (asTable v0photons) /\ In g2 (asTable phosclusters)
          /\ photonCollisionId (snd g1) = collisionId (snd (fst record))
          /\ photonCollisionId (snd g2) = collisionId (snd (fst record))
          /\ v = pair_values g1 g2
          /\ exists cut1 cut2, In cut1 (fPCMCuts task) /\ In cut2 (fPHOSCuts task)
               /\ IsSelectedPair kPCMPHOS g1 g2 cut1 cut2 = true
               /\ path = pair_hist kPCMPHOS cut1 cut2 "hs_q_same")
    (fst (processPCMPHOS task collisions v0photons phosclusters)).
Proof.
  apply Forall_forall. intros record Hrec.
  unfold processPCMPHOS, process in Hrec. simpl in Hrec.
  apply in_map_iff in Hrec as [collision [<- _]]. simpl.
  intros path g1 g2 v. apply SameEventPairing_body_two_subsystems. reflexivity.
Qed.

End FilledPairs.

(* ================================================================= *)
(** ** Which collisions are mixed, and what is filled from them *)

Section MixedRecords.
Context {G : Type} `{Candidate G}.
Local Open Scope nat_scope.

(** The pair fills of the loops of [MixedEventPairing] on two collisions. *)
Lemma MixedEventPairing_pairs_iff (pairtype : PairType) (t1 t2 : Table G)
    (cuts1 cuts2 : list (Cut G)) (path : list string) (g1 g2 : nat * G)
    (v : option Kinematics.Values) :
  In (FillND path g1 g2 v) (MixedEventPairing_pairs pairtype t1 t2 cuts1 cuts2)
  <-> In g1 t1 /\ In g2 t2 /\ v = pair_values g1 g2
      /\ exists cut1 cut2, In cut1 cuts1 /\ In cut2 cuts2
           /\ (if same_subsystem pairtype
               then GetName cut1 = GetName cut2 else True)
           /\ IsSelectedPair pairtype g1 g2 cut1 cut2 = true
           /\ path = pair_hist pairtype cut1 cut2 "hs_q_mix".
Proof.
  unfold MixedEventPairing_pairs. rewrite in_flat_map. split.
  - intros [cut1 [Hcut1 Hin]]. apply in_flat_map in Hin as [cut2 [Hcut2 Hin]].
    apply in_flat_map in Hin as [[a b] [Hab Hin]].
    apply CombinationsFullIndexPolicy_In in Hab.
    destruct (same_subsystem pairtype) eqn:Hsym; simpl in Hin.
    + destruct (String.eqb (GetName cut1) (GetName cut2)) eqn:Hname; simpl in Hin;
        [|destruct Hin].
      destruct (IsSelectedPair pairtype a b cut1 cut2) eqn:Hsel; simpl in Hin;
        [|destruct Hin].
      destruct Hin as [Heq | []]. unfold fill_pair in Heq.
      injection Heq as <- <- <- <-. apply String.eqb_eq in Hname.
      split; [apply Hab|]. split; [apply Hab|]. split; [reflexivity|].
      exists cut1, cut2. auto.
    + destruct (IsSelectedPair pairtype a b cut1 cut2) eqn:Hsel; simpl in Hin;
        [|destruct Hin].
      destruct Hin as [Heq | []]. unfold fill_pair in Heq.
      injection Heq as <- <- <- <-.
      split; [apply Hab|]. split; [apply Hab|]. split; [reflexivity|].
      exists cut1, cut2. auto.
  - intros [Hg1 [Hg2 [-> [cut1 [cut2 [Hcut1 [Hcut2 [Hname [Hsel ->]]]]]]]]].
    exists cut1. split; [exact Hcut1|]. apply in_flat_map.
    exists cut2. split; [exact Hcut2|]. apply in_flat_map.
    exists (g1, g2). split; [apply CombinationsFullIndexPolicy_In; auto|].
    rewrite Hsel. destruct (same_subsystem pairtype); simpl.
    + apply String.eqb_eq in Hname. rewrite Hname. simpl. left. reflexivity.
    + left. reflexivity.
Qed.

(** A pair of collisions with a record passed the candidate-count gate. *)
Lemma MixedEventPairing_loop_not_skipped (pairtype : PairType) (ndepth : Z)
    (photons1 photons2 : Table G) (cuts1 cuts2 : list (Cut G))
    (pairs : list ((nat * Collision) * (nat * Collision))) (nev index_coll1 : Z)
    (cc : (nat * Collision) * (nat * Collision)) (fills : list (Fill G)) :
  In (cc, fills)
     (MixedEventPairing_loop pairtype ndepth photons1 photons2 cuts1 cuts2
        pairs nev index_coll1) ->
  MixedEventPairing_skip pairtype (snd (fst cc)) (snd (snd cc)) = false.
Proof.
  revert nev index_coll1.
  induction pairs as [|[c1 c2] rest IH]; intros nev index_coll1; simpl; [intros []|].
  destruct (_ >? ndepth)%Z; [apply IH|].
  destruct (MixedEventPairing_skip pairtype (snd c1) (snd c2)) eqn:Hskip; [apply IH|].
  intros [Heq | Hin]; [|exact (IH _ _ Hin)].
  injection Heq as <- <-. exact Hskip.
Qed.

(** X7: event mixing: the two collisions of every record are rows of the table
    that pass both collision filters, lie in one mixing bin that is not the
    ignored one, and pass the candidate-count gate of the pair type; and in
    the record a pair is filled exactly when the first candidate is a row of
    the first collision, the second a row of the second collision, and they
    pass two cuts, of equal names when the pair type has one subsystem: it is
    filled with the values of the kinematic block into [hs_q_mix]. *)
Theorem MixedEventPairing_records (pairtype : PairType) (task : PhotonHBT G)
    (collisions : list Collision) (photons1 photons2 : list G)
    (cuts1 cuts2 : list (Cut G)) :
  Forall (fun record =>
    let collision1 := fst (fst record) in
    let collision2 := snd (fst record) in
    (In collision1 (asTable collisions) /\ In collision2 (asTable collisions)
     /\ collisionFilter_common (snd collision1) = true
     /\ collisionFilter_subsys (snd collision1) = true
     /\ collisionFilter_common (snd collision2) = true
     /\ collisionFilter_subsys (snd collision2) = true
     /\ colBinning task (snd collision1) = colBinning task (snd collision2)
     /\ colBinning task (snd collision1) <> (-1)%Z
     /\ MixedEventPairing_skip pairtype (snd collision1) (snd collision2) = false)
    /\ forall path g1 g2 v,
         In (FillND path g1 g2 v) (snd record)
         <-> In g1 (asTable photons1) /\ In g2 (asTable photons2)
             /\ photonCollisionId (snd g1) = collisionId (snd collision1)
             /\ photonCollisionId (snd g2) = collisionId (snd collision2)
             /\ v = pair_values g1 g2
             /\ exists cut1 cut2, In cut1 cuts1 /\ In cut2 cuts2
                  /\ (if same_subsystem pairtype
                      then GetName cut1 = GetName cut2 else True)
                  /\ IsSelectedPair pairtype g1 g2 cut1 cut2 = true
                  /\ path = pair_hist pairtype cut1 cut2 "hs_q_mix")
    (snd (process pairtype task collisions photons1 photons2 cuts1 cuts2)).
Proof.
  apply Forall_forall. intros [[c1 c2] fills] Hrec. simpl.
  unfold process in Hrec; simpl in Hrec. unfold MixedEventPairing in Hrec.
  pose proof (MixedEventPairing_loop_not_skipped _ _ _ _ _ _ _ _ _ _ _ Hrec) as Hskip.
  apply MixedEventPairing_loop_In in Hrec as [Hpair Hfills]. simpl in Hskip, Hfills.
  split.
  - unfold selfCombinations in Hpair.
    apply block_strictly_upper_In in Hpair as [_ [bin [H1 H2]]];
      [|apply groupTable_sorted
       |apply groupTable_NoDup, ascending_NoDup, ascending_filter, ascending_asTable].
    apply groupTable_In in H1 as [H1 [Hb1 Hout]].
    apply groupTable_In in H2 as [H2 [Hb2 _]].
    unfold MyFilteredCollisions, Filtered in H1, H2.
    apply filter_In in H1 as [H1 Hf1]. apply filter_In in H2 as [H2 Hf2].
    apply andb_true_iff in Hf1 as [Hf1 Hf1']. apply andb_true_iff in Hf2 as [Hf2 Hf2'].
    repeat split; try assumption; congruence.
  - intros path g1 g2 v. subst fills.
    rewrite MixedEventPairing_pairs_iff, !sliceBy_In. tauto.
Qed.

(** A depth below zero switches event mixing off. *)
Lemma MixedEventPairing_loop_negative_depth (pairtype : PairType) (ndepth : Z)
    (photons1 photons2 : Table G) (cuts1 cuts2 : list (Cut G))
    (pairs : list ((nat * Collision) * (nat * Collision))) (nev index_coll1 : Z) :
  (ndepth < 0)%Z -> (0 <= nev)%Z ->
  MixedEventPairing_loop pairtype ndepth photons1 photons2 cuts1 cuts2
    pairs nev index_coll1 = [].
Proof.
  intros Hdepth. revert nev index_coll1.
  induction pairs as [|[c1 c2] rest IH]; intros nev index_coll1 Hnev; simpl;
    [reflexivity|].
  destruct (negb (index_coll1 =? collisionId (snd c1))%Z).
  - replace (0 >? ndepth)%Z with true by (symmetry; apply Z.gtb_lt; lia).
    apply IH. lia.
  - replace (nev >? ndepth)%Z with true by (symmetry; apply Z.gtb_lt; lia).
    apply IH. exact Hnev.
Qed.

End MixedRecords.

(* ================================================================= *)
(** ** The records of an anchor, exactly *)

Section MixingExact.
Context {G : Type} `{Candidate G}.
Variable pairtype : PairType.
Variable ndepth : Z.
Variables photons1 photons2 : Table G.
Variables cuts1 cuts2 : list (Cut G).

Lemma pairs_of_anchor_app (anchor : nat)
    (l1 l2 : list ((nat * Collision) * (nat * Collision))) :
  pairs_of_anchor anchor (l1 ++ l2)
  = (pairs_of_anchor anchor l1 ++ pairs_of_anchor anchor l2)%list.
Proof. apply filter_app. Qed.

Lemma pairs_of_anchor_all (anchor : nat)
    (l : list ((nat * Collision) * (nat * Collision))) :
  (forall p, In p l -> fst (fst p) = anchor) -> pairs_of_anchor anchor l = l.
Proof.
  intros Hl. unfold pairs_of_anchor. induction l as [|p l IH]; simpl; [reflexivity|].
  rewrite (Hl p (or_introl eq_refl)), Nat.eqb_refl. f_equal.
  apply IH. intros q Hq. apply Hl. right. exact Hq.
Qed.

Lemma pairs_of_anchor_none (anchor : nat)
    (l : list ((nat * Collision) * (nat * Collision))) :
  (forall p, In p l -> fst (fst p) <> anchor) -> pairs_of_anchor anchor l = [].
Proof.
  intros Hl. unfold pairs_of_anchor. induction l as [|p l IH]; simpl; [reflexivity|].
  destruct (Nat.eqb_spec (fst (fst p)) anchor) as [Heq | Hneq].
  - exfalso. exact (Hl p (or_introl eq_refl) Heq).
  - apply IH. intros q Hq. apply Hl. right. exact Hq.
Qed.

Lemma records_of_anchor_pairs (anchor : nat)
    (l : list (((nat * Collision) * (nat * Collision)) * list (Fill G))) :
  map fst (records_of_anchor anchor l) = pairs_of_anchor anchor (map fst l).
Proof.
  unfold records_of_anchor, pairs_of_anchor.
  induction l as [|r l IH]; simpl; [reflexivity|].
  destruct (Nat.eqb (fst (fst (fst r))) anchor); simpl; rewrite IH; reflexivity.
Qed.

(** From a state on the anchor [x], the pairs of [x] that are recorded are
    the first [ndepth + 1 - nev] that pass the candidate-count gate. *)
Lemma MixedEventPairing_loop_anchor_exact (x : nat * Collision)
    (ps : list (nat * Collision))
    (rest : list ((nat * Collision) * (nat * Collision))) (nev : Z) :
  (0 <= nev)%Z ->
  exists out1 nev',
    MixedEventPairing_loop pairtype ndepth photons1 photons2 cuts1 cuts2
      (map (pair x) ps ++ rest)%list nev (collisionId (snd x))
    = (out1
       ++ MixedEventPairing_loop pairtype ndepth photons1 photons2 cuts1 cuts2
            rest nev' (collisionId (snd x)))%list
    /\ map fst out1
       = firstn (Z.to_nat (ndepth + 1 - nev))
           (filter (mixable pairtype) (map (pair x) ps))
    /\ (0 <= nev')%Z.
Proof.
  revert nev. induction ps as [|y ps IH]; intros nev Hnev.
  - exists [], nev. simpl. rewrite firstn_nil.
    split; [reflexivity|]. split; [reflexivity | exact Hnev].
  - simpl. rewrite Z.eqb_refl. simpl. unfold mixable at 1. simpl.
    destruct (nev >? ndepth)%Z eqn:Hdepth.
    + destruct (IH nev Hnev) as [out1 [nev' [Heq [Hout Hnev']]]].
      exists out1, nev'. split; [exact Heq|]. split; [|exact Hnev'].
      apply Z.gtb_lt in Hdepth.
      rewrite Hout. replace (Z.to_nat (ndepth + 1 - nev)) with 0%nat by lia.
      reflexivity.
    + rewrite Z.gtb_ltb in Hdepth. apply Z.ltb_ge in Hdepth.
      destruct (MixedEventPairing_skip pairtype (snd x) (snd y)); simpl.
      * exact (IH nev Hnev).
      * destruct (IH (nev + 1)%Z ltac:(lia)) as [out1 [nev' [Heq [Hout Hnev']]]].
        eexists (_ :: out1), nev'. rewrite Heq. simpl.
        split; [reflexivity|]. split; [|exact Hnev'].
        replace (Z.to_nat (ndepth + 1 - nev))
          with (S (Z.to_nat (ndepth + 1 - (nev + 1)))) by lia.
        simpl. rewrite Hout. reflexivity.
Qed.

(** From a state that is fresh for the anchor [x], the pairs of [x] that are
    recorded are the first [ndepth + 1] that pass the gate. *)
Lemma MixedEventPairing_loop_block_exact (x : nat * Collision)
    (ps : list (nat * Collision))
    (rest : list ((nat * Collision) * (nat * Collision))) (nev index_coll1 : Z) :
  (0 <= nev)%Z -> nev = 0%Z \/ index_coll1 <> collisionId (snd x) ->
  exists out1 nev' index',
    MixedEventPairing_loop pairtype ndepth photons1 photons2 cuts1 cuts2
      (map (pair x) ps ++ rest)%list nev index_coll1
    = (out1
       ++ MixedEventPairing_loop pairtype ndepth photons1 photons2 cuts1 cuts2
            rest nev' index')%list
    /\ map fst out1
       = firstn (Z.to_nat (ndepth + 1)) (filter (mixable pairtype) (map (pair x) ps))
    /\ (0 <= nev')%Z
    /\ ((index' = index_coll1 /\ nev' = nev) \/ index' = collisionId (snd x)).
Proof.
  intros Hnev Hfresh. destruct ps as [|y ps].
  - exists [], nev, index_coll1. simpl. rewrite firstn_nil.
    split; [reflexivity|]. split; [reflexivity|].
    split; [exact Hnev | left; split; reflexivity].
  - change (map (pair x) (y :: ps) ++ rest)%list
      with ((x, y) :: (map (pair x) ps ++ rest))%list.
    rewrite MixedEventPairing_loop_enter.
    assert (Hzero : (if negb (index_coll1 =? collisionId (snd x))%Z then 0%Z else nev)
                    = 0%Z).
    { destruct (Z.eqb_spec index_coll1 (collisionId (snd x))) as [Heq | Hneq]; simpl;
        [|reflexivity].
      destruct Hfresh as [Hz | Hne]; [exact Hz | contradiction]. }
    rewrite Hzero.
    destruct (MixedEventPairing_loop_anchor_exact x (y :: ps) rest 0 ltac:(lia))
      as [out1 [nev' [Heq [Hout Hnev']]]].
    exists out1, nev', (collisionId (snd x)).
    split; [exact Heq|]. rewrite Z.sub_0_r in Hout. auto.
Qed.

(** Over the pairs of a grouped table whose collisions have distinct
    identifiers, the records of every anchor are its first [ndepth + 1]
    pairs that pass the candidate-count gate. *)
Lemma MixedEventPairing_loop_exact (categoryNeighbours : nat)
    (grouped : list (Z * (nat * Collision))) (nev index_coll1 : Z) (anchor : nat) :
  NoDup (map (fun x => fst (snd x)) grouped) ->
  NoDup (map (fun x => collisionId (snd (snd x))) grouped) ->
  (0 <= nev)%Z ->
  nev = 0%Z \/ ~ In index_coll1 (map (fun x => collisionId (snd (snd x))) grouped) ->
  map fst
    (records_of_anchor anchor
       (MixedEventPairing_loop pairtype ndepth photons1 photons2 cuts1 cuts2
          (block_strictly_upper categoryNeighbours grouped) nev index_coll1))
  = firstn (Z.to_nat (ndepth + 1))
      (filter (mixable pairtype)
         (pairs_of_anchor anchor (block_strictly_upper categoryNeighbours grouped))).
Proof.
  revert nev index_coll1.
  induction grouped as [|[bin x] rest IH]; intros nev index_coll1 Hnd Hid Hnev Hfresh.
  - simpl. rewrite firstn_nil. reflexivity.
  - apply NoDup_cons_iff in Hnd as [Hx Hrest]. simpl in Hx.
    apply NoDup_cons_iff in Hid as [Hidx Hidrest]. simpl in Hidx.
    simpl block_strictly_upper.
    set (ps := partners categoryNeighbours bin rest).
    set (B := block_strictly_upper categoryNeighbours rest).
    assert (Hfresh_x : nev = 0%Z \/ index_coll1 <> collisionId (snd x)).
    { destruct Hfresh as [Hz | Hni]; [left; exact Hz | right].
      intros Heq. apply Hni. simpl. left. symmetry. exact Heq. }
    destruct (MixedEventPairing_loop_block_exact x ps B nev index_coll1 Hnev Hfresh_x)
      as [out1 [nev' [index' [Heq [Hout [Hnev' Hstate]]]]]].
    assert (Hfresh' : nev' = 0%Z
                      \/ ~ In index' (map (fun x => collisionId (snd (snd x))) rest)).
    { destruct Hstate as [[-> ->] | ->].
      - destruct Hfresh as [Hz | Hni]; [left; exact Hz | right].
        intros Hin. apply Hni. simpl. right. exact Hin.
      - right. exact Hidx. }
    assert (HB : forall p, In p B -> fst (fst p) <> fst x).
    { intros [c1 c2] Hin Hc1. simpl in Hc1.
      apply block_strictly_upper_In_anchor in Hin as [bin' Hin].
      apply Hx. rewrite <- Hc1. exact (in_map (fun x => fst (snd x)) _ _ Hin). }
    assert (Hps : forall p, In p (map (pair x) ps) -> fst p = x).
    { intros p Hp. apply in_map_iff in Hp as [y [<- _]]. reflexivity. }
    rewrite Heq, records_of_anchor_app, map_app, pairs_of_anchor_app.
    rewrite (records_of_anchor_pairs anchor out1), Hout.
    destruct (Nat.eq_dec (fst x) anchor) as [Ha | Ha].
    + rewrite (pairs_of_anchor_none anchor B) by (intros p Hp; rewrite <- Ha; auto).
      rewrite (pairs_of_anchor_all anchor (map (pair x) ps))
        by (intros p Hp; rewrite (Hps p Hp); exact Ha).
      rewrite app_nil_r.
      rewrite pairs_of_anchor_all.
      * rewrite records_of_anchor_nil; [apply app_nil_r|].
        intros [cc fills] Hin. simpl.
        apply MixedEventPairing_loop_In in Hin as [Hin _].
        rewrite <- Ha. apply HB. exact Hin.
      * intros p Hp. apply firstn_In in Hp. apply filter_In in Hp as [Hp _].
        rewrite (Hps p Hp). exact Ha.
    + rewrite (pairs_of_anchor_none anchor (map (pair x) ps))
        by (intros p Hp; rewrite (Hps p Hp); exact Ha).
      rewrite (pairs_of_anchor_none anchor (firstn _ _)).
      * simpl. apply IH; assumption.
      * intros p Hp. apply firstn_In in Hp. apply filter_In in Hp as [Hp _].
        rewrite (Hps p Hp). exact Ha.
Qed.

End MixingExact.

Section MixingExactProcess.
Context {G : Type} `{Candidate G}.

Lemma asTable_snd {A : Type} (rows : list A) : map snd (asTable rows) = rows.
Proof.
  unfold asTable. generalize 0%nat.
  induction rows as [|x r IH]; intros a; simpl; [reflexivity|].
  rewrite IH. reflexivity.
Qed.

Lemma groupTable_NoDup_collisionId (getBin : Collision -> Z) (outsider : Z)
    (collisions : list Collision) (f : Collision -> bool) :
  NoDup (map collisionId collisions) ->
  NoDup (map (fun x => collisionId (snd (snd x)))
           (groupTable getBin outsider (Filtered f (asTable collisions)))).
Proof.
  intros Hnd. unfold groupTable.
  eapply Permutation_NoDup.
  - apply Permutation_map. symmetry. apply sort_binned_Permutation.
  - apply NoDup_map_filter. rewrite map_map. simpl.
    unfold Filtered.
    apply (NoDup_map_filter (fun r : nat * Collision => collisionId (snd r))).
    rewrite <- (map_map snd collisionId), asTable_snd. exact Hnd.
Qed.

(** X9: event mixing, anchor by anchor: when the collisions of the table have
    distinct identifiers, the pairs of collisions recorded for an anchor are
    the first [ndepth + 1] of its same-bin partner pairs that pass the
    candidate-count gate, in their order; a pair that fails the gate does not
    count towards the depth. *)
Theorem MixedEventPairing_anchor_records (pairtype : PairType) (task : PhotonHBT G)
    (collisions : list Collision) (photons1 photons2 : list G)
    (cuts1 cuts2 : list (Cut G)) (anchor : nat) :
  NoDup (map collisionId collisions) ->
  map fst
    (records_of_anchor anchor
       (snd (process pairtype task collisions photons1 photons2 cuts1 cuts2)))
  = firstn (Z.to_nat (ndepth task + 1))
      (filter (mixable pairtype)
         (pairs_of_anchor anchor
            (selfCombinations (colBinning task) 1000 (-1)
               (MyFilteredCollisions (asTable collisions))))).
Proof.
  intros Hnd. unfold process; simpl. unfold MixedEventPairing, selfCombinations.
  apply MixedEventPairing_loop_exact.
  - apply groupTable_NoDup, ascending_NoDup, ascending_filter, ascending_asTable.
  - apply groupTable_NoDup_collisionId. exact Hnd.
  - lia.
  - left. reflexivity.
Qed.

End MixingExactProcess.

(* ================================================================= *)
(** ** Every pair fill has its bucket *)

Section BucketsOfFills.

Lemma find_app {A : Type} (f : A -> bool) (l1 l2 : list A) :
  find f (l1 ++ l2)%list
  = match find f l1 with Some x => Some x | None => find f l2 end.
Proof.
  induction l1 as [|x r IH]; simpl; [reflexivity|].
  destruct (f x); [reflexivity | exact IH].
Qed.

Lemma FindObject_AddHistClass_same (lst : TObject) (histClass : string) :
  FindObject (AddHistClass lst histClass) histClass <> None.
Proof.
  unfold AddHistClass. destruct (FindObject lst histClass) as [o|] eqn:Hf.
  - rewrite Hf. discriminate.
  - unfold FindObject in *. simpl. rewrite find_app, Hf. simpl.
    rewrite String.eqb_refl. discriminate.
Qed.

Lemma buckets_AddHistClass (lst : TObject) (histClass pairname n : string) :
  In n (buckets lst pairname) -> In n (buckets (AddHistClass lst histClass) pairname).
Proof.
  unfold buckets, AddHistClass.
  destruct (FindObject lst histClass); [auto|].
  unfold FindObject. simpl. rewrite find_app.
  destruct (find _ (TObject_objs lst)); [auto | intros []].
Qed.

Lemma FindObject_update_object_other (lst : TObject) (n m : string)
    (f : TObject -> TObject) :
  n <> m -> (forall o, TObject_name (f o) = TObject_name o) ->
  FindObject (update_object lst n f) m = FindObject lst m.
Proof.
  intros Hnm Hf. unfold FindObject, update_object; simpl.
  induction (TObject_objs lst) as [|o r IH]; simpl; [reflexivity|].
  destruct (String.eqb (TObject_name o) n) eqn:Ho; simpl.
  - rewrite Hf. apply String.eqb_eq in Ho. rewrite Ho.
    destruct (String.eqb_spec n m) as [Heq | Hneq]; [contradiction | reflexivity].
  - destruct (String.eqb (TObject_name o) m); [reflexivity | exact IH].
Qed.

Context {G1 G2 : Type}.

Lemma add_pair_histograms_body_other (pairname other : string)
    (cut1 : Cut G1) (cut2 : Cut G2) (list_pair : TObject) :
  pairname <> other ->
  FindObject (add_pair_histograms_body pairname cut1 cut2 list_pair) other
  = FindObject list_pair other.
Proof.
  intros Hneq. unfold add_pair_histograms_body.
  destruct (_ && _); [reflexivity|].
  apply FindObject_update_object_other; [exact Hneq|].
  intros o. unfold update_object; simpl. apply AddHistClass_name.
Qed.

Lemma add_pair_histograms_other (pairname other : string)
    (cuts1 : list (Cut G1)) (cuts2 : list (Cut G2)) (list_pair : TObject) :
  pairname <> other ->
  FindObject (add_pair_histograms list_pair pairname cuts1 cuts2) other
  = FindObject list_pair other.
Proof.
  intros Hneq. unfold add_pair_histograms. revert list_pair.
  induction cuts1 as [|cut1 r IH]; intros list_pair; simpl; [reflexivity|].
  rewrite IH. clear IH. revert list_pair.
  induction cuts2 as [|cut2 r2 IH2]; intros list_pair; simpl; [reflexivity|].
  rewrite IH2. apply add_pair_histograms_body_other. exact Hneq.
Qed.

Lemma add_pair_histograms_name (pairname : string)
    (cuts1 : list (Cut G1)) (cuts2 : list (Cut G2)) (list_pair : TObject) :
  TObject_name (add_pair_histograms list_pair pairname cuts1 cuts2)
  = TObject_name list_pair.
Proof.
  unfold add_pair_histograms. revert list_pair.
  induction cuts1 as [|cut1 r IH]; intros list_pair; simpl; [reflexivity|].
  rewrite IH. clear IH. revert list_pair.
  induction cuts2 as [|cut2 r2 IH2]; intros list_pair; simpl; [reflexivity|].
  rewrite IH2. unfold add_pair_histograms_body.
  destruct (_ && _); reflexivity.
Qed.

(** [add_pair_histograms] removes no bucket, of any pair type. *)
Lemma add_pair_histograms_keeps (pairname other n : string)
    (cuts1 : list (Cut G1)) (cuts2 : list (Cut G2)) (list_pair : TObject) :
  In n (buckets list_pair other) ->
  In n (buckets (add_pair_histograms list_pair pairname cuts1 cuts2) other).
Proof.
  intros Hin. destruct (string_dec pairname other) as [-> | Hneq].
  - assert (Hsub : FindObject list_pair other <> None).
    { unfold buckets in Hin. destruct (FindObject list_pair other);
        [discriminate | destruct Hin]. }
    apply (add_pair_histograms_buckets_from other cuts1 cuts2 list_pair Hsub).
    left. exact Hin.
  - unfold buckets. rewrite add_pair_histograms_other by exact Hneq. exact Hin.
Qed.

(** On a list that has the sublist of the pair type, it adds the bucket of
    every pair of cuts that the matching rule lets through. *)
Lemma add_pair_histograms_adds (pairname : string)
    (cuts1 : list (Cut G1)) (cuts2 : list (Cut G2)) (list_pair : TObject)
    (cut1 : Cut G1) (cut2 : Cut G2) :
  FindObject list_pair pairname <> None ->
  In cut1 cuts1 -> In cut2 cuts2 -> adds_bucket pairname cut1 cut2 ->
  In (GetName cut1 ++ "_" ++ GetName cut2)
     (buckets (add_pair_histograms list_pair pairname cuts1 cuts2) pairname).
Proof.
  intros Hsub H1 H2 Hadd.
  apply (add_pair_histograms_buckets_from pairname cuts1 cuts2 list_pair Hsub).
  right. exists cut1, cut2. auto.
Qed.

End BucketsOfFills.

Section BucketsOfInit.
Context {G : Type}.
Variables fPCMCuts fPHOSCuts : list (Cut G).

(** The cut lists that [addhistograms] passes for a pair name, and whether
    it passes any. *)
Lemma addhistograms_body_keeps (lists : TObject * TObject) (pairname other n : string) :
  In n (buckets (snd lists) other) ->
  In n (buckets (snd (addhistograms_body fPCMCuts fPHOSCuts lists pairname)) other).
Proof.
  destruct lists as [list_ev list_pair]. unfold addhistograms_body. simpl.
  intros Hin. apply (buckets_AddHistClass _ pairname) in Hin.
  destruct (String.eqb pairname "PCMPCM");
    destruct (String.eqb pairname "PHOSPHOS");
    destruct (String.eqb pairname "PCMPHOS");
    repeat apply add_pair_histograms_keeps; exact Hin.
Qed.

Lemma addhistograms_body_names (lists : TObject * TObject) (pairname : string) :
  TObject_name (fst (addhistograms_body fPCMCuts fPHOSCuts lists pairname))
  = TObject_name (fst lists)
  /\ TObject_name (snd (addhistograms_body fPCMCuts fPHOSCuts lists pairname))
     = TObject_name (snd lists).
Proof.
  destruct lists as [list_ev list_pair]. unfold addhistograms_body. simpl.
  split; [apply AddHistClass_name|].
  destruct (String.eqb pairname "PCMPCM");
    destruct (String.eqb pairname "PHOSPHOS");
    destruct (String.eqb pairname "PCMPHOS");
    rewrite ?add_pair_histograms_name; apply AddHistClass_name.
Qed.

Lemma addhistograms_fold_keeps (fPairNames : list string) (lists : TObject * TObject)
    (other n : string) :
  In n (buckets (snd lists) other) ->
  In n (buckets (snd (fold_left (addhistograms_body fPCMCuts fPHOSCuts)
                        fPairNames lists)) other).
Proof.
  revert lists. induction fPairNames as [|p r IH]; intros lists Hin; simpl;
    [exact Hin|].
  apply IH, addhistograms_body_keeps. exact Hin.
Qed.

Lemma addhistograms_fold_names (fPairNames : list string) (lists : TObject * TObject) :
  TObject_name (fst (fold_left (addhistograms_body fPCMCuts fPHOSCuts)
                       fPairNames lists)) = TObject_name (fst lists)
  /\ TObject_name (snd (fold_left (addhistograms_body fPCMCuts fPHOSCuts)
                          fPairNames lists)) = TObject_name (snd lists).
Proof.
  revert lists. induction fPairNames as [|p r IH]; intros lists; simpl;
    [split; reflexivity|].
  destruct (IH (addhistograms_body fPCMCuts fPHOSCuts lists p)) as [H1 H2].
  destruct (addhistograms_body_names lists p) as [H3 H4].
  split; congruence.
Qed.

Lemma pair_buckets_addhistograms (fPairNames : list string) (pairname : string) :
  pair_buckets (addhistograms fPairNames fPCMCuts fPHOSCuts) pairname
  = buckets (snd (fold_left (addhistograms_body fPCMCuts fPHOSCuts) fPairNames
                    (THashList "Event" [], THashList "Pair" []))) pairname.
Proof.
  unfold pair_buckets, addhistograms.
  destruct (addhistograms_fold_names fPairNames (THashList "Event" [], THashList "Pair" []))
    as [Hev Hpair].
  destruct (fold_left _ _ _) as [list_ev list_pair]. simpl in *.
  unfold FindObject. simpl. rewrite Hev, Hpair. reflexivity.
Qed.

(** The buckets that the turn of [addhistograms] for a pair name creates. *)
Lemma addhistograms_body_adds (lists : TObject * TObject) (pairname : string)
    (cuts1 cuts2 : list (Cut G)) (cut1 cut2 : Cut G) :
  (pairname = "PCMPCM" /\ cuts1 = fPCMCuts /\ cuts2 = fPCMCuts)
  \/ (pairname = "PHOSPHOS" /\ cuts1 = fPHOSCuts /\ cuts2 = fPHOSCuts)
  \/ (pairname = "PCMPHOS" /\ cuts1 = fPCMCuts /\ cuts2 = fPHOSCuts) ->
  In cut1 cuts1 -> In cut2 cuts2 -> adds_bucket pairname cut1 cut2 ->
  In (GetName cut1 ++ "_" ++ GetName cut2)
     (buckets (snd (addhistograms_body fPCMCuts fPHOSCuts lists pairname)) pairname).
Proof.
  destruct lists as [list_ev list_pair]. unfold addhistograms_body.
  intros [[-> [-> ->]] | [[-> [-> ->]] | [-> [-> ->]]]] H1 H2 Hadd; simpl.
  - apply add_pair_histograms_adds; auto. apply FindObject_AddHistClass_same.
  - apply add_pair_histograms_adds; auto. apply FindObject_AddHistClass_same.
  - apply add_pair_histograms_adds; auto. apply FindObject_AddHistClass_same.
Qed.

Lemma addhistograms_adds (fPairNames : list string) (pairname : string)
    (cuts1 cuts2 : list (Cut G)) (cut1 cut2 : Cut G) :
  In pairname fPairNames ->
  (pairname = "PCMPCM" /\ cuts1 = fPCMCuts /\ cuts2 = fPCMCuts)
  \/ (pairname = "PHOSPHOS" /\ cuts1 = fPHOSCuts /\ cuts2 = fPHOSCuts)
  \/ (pairname = "PCMPHOS" /\ cuts1 = fPCMCuts /\ cuts2 = fPHOSCuts) ->
  In cut1 cuts1 -> In cut2 cuts2 -> adds_bucket pairname cut1 cut2 ->
  In (GetName cut1 ++ "_" ++ GetName cut2)
     (pair_buckets (addhistograms fPairNames fPCMCuts fPHOSCuts) pairname).
Proof.
  intros Hin Hcase H1 H2 Hadd. rewrite pair_buckets_addhistograms.
  generalize (THashList "Event" [], THashList "Pair" []).
  induction fPairNames as [|p r IH]; intros lists; [destruct Hin|].
  simpl. destruct Hin as [-> | Hin].
  - apply addhistograms_fold_keeps.
    apply (addhistograms_body_adds lists pairname cuts1 cuts2); assumption.
  - apply IH. exact Hin.
Qed.

End BucketsOfInit.

Section BucketsOfProcess.
Context {G : Type} `{Candidate G}.

Lemma pair_fill_paths_In {K : Type} (records : list (K * list (Fill G)))
    (path : list string) :
  In path (pair_fill_paths records)
  <-> exists record g1 g2 v, In record records /\ In (FillND path g1 g2 v) (snd record).
Proof.
  unfold pair_fill_paths. rewrite in_flat_map. split.
  - intros [record [Hrec Hin]]. apply in_flat_map in Hin as [f [Hf Hin]].
    destruct f as [h x | path' g1 g2 v]; [destruct Hin|].
    destruct Hin as [<- | []]. exists record, g1, g2, v. auto.
  - intros [record [g1 [g2 [v [Hrec Hin]]]]]. exists record. split; [exact Hrec|].
    apply in_flat_map. exists (FillND path g1 g2 v). split; [exact Hin|].
    left. reflexivity.
Qed.

(** Every pair fill of a process function goes into a bucket that
    [addhistograms] made, when the pair name is registered. *)
Lemma process_into_buckets (pairtype : PairType) (task : PhotonHBT G)
    (fPairNames : list string) (collisions : list Collision)
    (photons1 photons2 : list G) (cuts1 cuts2 : list (Cut G)) :
  (pairtype = kPCMPCM /\ cuts1 = fPCMCuts task /\ cuts2 = fPCMCuts task)
  \/ (pairtype = kPHOSPHOS /\ cuts1 = fPHOSCuts task /\ cuts2 = fPHOSCuts task)
  \/ (pairtype = kPCMPHOS /\ cuts1 = fPCMCuts task /\ cuts2 = fPHOSCuts task) ->
  In (pairnames pairtype) fPairNames ->
  Forall (into_bucket (addhistograms fPairNames (fPCMCuts task) (fPHOSCuts task))
            (pairnames pairtype))
    (pair_fill_paths (fst (process pairtype task collisions photons1 photons2 cuts1 cuts2))
     ++ pair_fill_paths
          (snd (process pairtype task collisions photons1 photons2 cuts1 cuts2)))%list.
Proof.
  intros Hcase Hname.
  assert (Hnames : (pairnames pairtype = "PCMPCM"
                    /\ cuts1 = fPCMCuts task /\ cuts2 = fPCMCuts task)
                   \/ (pairnames pairtype = "PHOSPHOS"
                       /\ cuts1 = fPHOSCuts task /\ cuts2 = fPHOSCuts task)
                   \/ (pairnames pairtype = "PCMPHOS"
                       /\ cuts1 = fPCMCuts task /\ cuts2 = fPHOSCuts task)).
  { destruct Hcase as [[-> Hc] | [[-> Hc] | [-> Hc]]]; simpl; auto. }
  assert (Hrule : forall cut1 cut2 : Cut G,
             (if same_subsystem pairtype then GetName cut1 = GetName cut2 else True) ->
             adds_bucket (pairnames pairtype) cut1 cut2).
  { intros cut1 cut2. unfold adds_bucket.
    destruct Hcase as [[-> _] | [[-> _] | [-> _]]]; simpl; auto. }
  assert (Hbucket : forall (cut1 cut2 : Cut G) (h : string),
             In cut1 cuts1 -> In cut2 cuts2 ->
             (if same_subsystem pairtype then GetName cut1 = GetName cut2 else True) ->
             h = "hs_q_same" \/ h = "hs_q_mix" ->
             into_bucket (addhistograms fPairNames (fPCMCuts task) (fPHOSCuts task))
               (pairnames pairtype) (pair_hist pairtype cut1 cut2 h)).
  { intros cut1 cut2 h H1 H2 Heq Hh.
    exists (GetName cut1 ++ "_" ++ GetName cut2), h.
    split; [reflexivity|]. split; [|exact Hh].
    apply (addhistograms_adds (fPCMCuts task) (fPHOSCuts task) fPairNames
             (pairnames pairtype) cuts1 cuts2); auto. }
  apply Forall_forall. intros path Hpath. apply in_app_iff in Hpath.
  destruct Hpath as [Hsame | Hmixed].
  - apply pair_fill_paths_In in Hsame as [record [g1 [g2 [v [Hrec Hin]]]]].
    unfold process in Hrec; simpl in Hrec. unfold SameEventPairing in Hrec.
    apply in_map_iff in Hrec as [collision [<- _]]. simpl in Hin.
    apply SameEventPairing_body_pairs in Hin as [_ Hin].
    apply SameEventPairing_pairs_iff in Hin as [_ Hin].
    destruct (same_subsystem pairtype) eqn:Hsym.
    + destruct Hin as [_ [cut [Hcut [_ ->]]]].
      assert (Hcut2 : In cut cuts2).
      { destruct Hcase as [[_ [-> ->]] | [[_ [-> ->]] | [-> _]]];
          [exact Hcut | exact Hcut | discriminate]. }
      apply Hbucket; simpl; auto.
    + destruct Hin as [_ [_ [cut1 [cut2 [H1 [H2 [_ ->]]]]]]].
      apply Hbucket; simpl; auto.
  - apply pair_fill_paths_In in Hmixed as [[cc fills] [g1 [g2 [v [Hrec Hin]]]]].
    unfold process in Hrec; simpl in Hrec. unfold MixedEventPairing in Hrec.
    apply MixedEventPairing_loop_In in Hrec as [_ ->]. simpl in Hin.
    apply MixedEventPairing_pairs_iff in Hin
      as [_ [_ [_ [cut1 [cut2 [H1 [H2 [Heq [_ ->]]]]]]]]].
    apply Hbucket; auto.
Qed.

(** X12: whatever other process functions are enabled, every pair fill of
    [processPCMPCM], [processPHOSPHOS] and [processPCMPHOS], same-event or
    mixed, goes to [hs_q_same] or [hs_q_mix] of a bucket that [init] created
    under the pair type of the function: the lookup of the bucket never
    fails. *)
Theorem pair_fills_have_buckets (task : PhotonHBT G) (collisions : list Collision)
    (v0photons phosclusters : list G) :
  (forall b2 b3 : bool,
     Forall (into_bucket (init_fMainList true b2 b3 (fPCMCuts task) (fPHOSCuts task))
               "PCMPCM")
       (pair_fill_paths (fst (processPCMPCM task collisions v0photons))
        ++ pair_fill_paths (snd (processPCMPCM task collisions v0photons)))%list)
  /\ (forall b1 b3 : bool,
        Forall (into_bucket (init_fMainList b1 true b3 (fPCMCuts task) (fPHOSCuts task))
                  "PHOSPHOS")
          (pair_fill_paths (fst (processPHOSPHOS task collisions phosclusters))
           ++ pair_fill_paths (snd (processPHOSPHOS task collisions phosclusters)))%list)
  /\ (forall b1 b2 : bool,
        Forall (into_bucket (init_fMainList b1 b2 true (fPCMCuts task) (fPHOSCuts task))
                  "PCMPHOS")
          (pair_fill_paths
             (fst (processPCMPHOS task collisions v0photons phosclusters))
           ++ pair_fill_paths
                (snd (processPCMPHOS task collisions v0photons phosclusters)))%list).
Proof.
  split; [|split].
  - intros b2 b3.
    apply (process_into_buckets kPCMPCM task (init_fPairNames true b2 b3));
      [left; auto|].
    unfold init_fPairNames. simpl. left. reflexivity.
  - intros b1 b3.
    apply (process_into_buckets kPHOSPHOS task (init_fPairNames b1 true b3));
      [right; left; auto|].
    unfold init_fPairNames. destruct b1; simpl; auto.
  - intros b1 b2.
    apply (process_into_buckets kPCMPHOS task (init_fPairNames b1 b2 true));
      [right; right; auto|].
    unfold init_fPairNames. destruct b1, b2; simpl; auto.
Qed.

(** X8: every collision of a mixed-event record passes the selection-flag,
    contributor and vertex gates of [SameEventPairing]: the same-event path
    accepts it exactly when the readout gate of line 203 lets it through. *)
Theorem mixed_collisions_pass_event_gates (pairtype : PairType) (task : PhotonHBT G)
    (collisions : list Collision) (photons1 photons2 : list G)
    (cuts1 cuts2 : list (Cut G)) :
  Forall (fun record =>
    snd (SameEventPairing_gates (G:=G) pairtype (snd (fst (fst record))))
    = readout_gate pairtype (snd (fst (fst record)))
    /\ snd (SameEventPairing_gates (G:=G) pairtype (snd (snd (fst record))))
       = readout_gate pairtype (snd (snd (fst record))))
    (snd (process pairtype task collisions photons1 photons2 cuts1 cuts2)).
Proof.
  assert (Hgate : forall c : nat * Collision,
             In c (MyFilteredCollisions (asTable collisions)) ->
             snd (SameEventPairing_gates (G:=G) pairtype (snd c))
             = readout_gate pairtype (snd c)).
  { intros c Hc. unfold MyFilteredCollisions, Filtered in Hc.
    apply filter_In in Hc as [_ Hf]. apply andb_true_iff in Hf as [Hf _].
    unfold collisionFilter_common in Hf.
    apply andb_true_iff in Hf as [Hf Hsel]. apply andb_true_iff in Hf as [Hz Hn].
    rewrite SameEventPairing_gates_accept.
    destruct (sel8 (snd c)); [|discriminate].
    rewrite Z.gtb_ltb in Hn. rewrite Hn.
    assert (Hv : Qlt_bool 10 (Qabs (posZ (snd c))) = false).
    { apply Qlt_bool_false_iff. apply Qlt_bool_iff in Hz. apply Qlt_le_weak, Hz. }
    rewrite Hv. simpl. rewrite !andb_true_r. reflexivity. }
  apply Forall_forall. intros [[c1 c2] fills] Hrec. simpl.
  unfold process in Hrec; simpl in Hrec. unfold MixedEventPairing in Hrec.
  apply MixedEventPairing_loop_In in Hrec as [Hpair _].
  unfold selfCombinations in Hpair.
  apply block_strictly_upper_In in Hpair as [_ [bin [H1 H2]]];
    [|apply groupTable_sorted
     |apply groupTable_NoDup, ascending_NoDup, ascending_filter, ascending_asTable].
  apply groupTable_In in H1 as [H1 _]. apply groupTable_In in H2 as [H2 _].
  split; apply Hgate; assumption.
Qed.

(** X11: with a depth below zero, event mixing records nothing. *)
Theorem MixedEventPairing_negative_depth (pairtype : PairType) (task : PhotonHBT G)
    (collisions : list Collision) (photons1 photons2 : list G)
    (cuts1 cuts2 : list (Cut G)) :
  (ndepth task < 0)%Z ->
  snd (process pairtype task collisions photons1 photons2 cuts1 cuts2) = [].
Proof.
  intros Hdepth. unfold process; simpl. unfold MixedEventPairing.
  apply MixedEventPairing_loop_negative_depth; [exact Hdepth | lia].
Qed.

End BucketsOfProcess.

(** X11 at depth -1, on two collisions of one mixing bin. *)
Lemma MixedEventPairing_negative_depth_witness :
  (ndepth (example_task_with_depth (-1)) < 0)%Z
  /\ snd (process kPCMPCM (example_task_with_depth (-1)) two_collisions
            four_candidates four_candidates example_PCMCuts example_PCMCuts) = [].
Proof.
  assert (Hdepth : (ndepth (example_task_with_depth (-1)) < 0)%Z) by (simpl; lia).
  split; [exact Hdepth|].
  exact (MixedEventPairing_negative_depth kPCMPCM (example_task_with_depth (-1))
           two_collisions four_candidates four_candidates
           example_PCMCuts example_PCMCuts Hdepth).
Defined.

(** X9 on sixteen collisions of one mixing bin, for the anchor row 0: of
    its fifteen partner pairs, the first eleven are recorded. *)
Lemma MixedEventPairing_anchor_records_witness :
  NoDup (map collisionId sixteen_collisions)
  /\ length (filter (mixable kPCMPCM)
               (pairs_of_anchor 0
                  (selfCombinations (colBinning example_task) 1000 (-1)
                     (MyFilteredCollisions (asTable sixteen_collisions))))) = 15%nat
  /\ length (firstn (Z.to_nat (ndepth example_task + 1))
               (filter (mixable kPCMPCM)
                  (pairs_of_anchor 0
                     (selfCombinations (colBinning example_task) 1000 (-1)
                        (MyFilteredCollisions (asTable sixteen_collisions)))))) = 11%nat
  /\ map fst
       (records_of_anchor 0
          (snd (process kPCMPCM example_task sixteen_collisions
                  sixteen_collisions_photons sixteen_collisions_photons
                  example_PCMCuts example_PCMCuts)))
     = firstn (Z.to_nat (ndepth example_task + 1))
         (filter (mixable kPCMPCM)
            (pairs_of_anchor 0
               (selfCombinations (colBinning example_task) 1000 (-1)
                  (MyFilteredCollisions (asTable sixteen_collisions))))).
Proof.
  assert (Hnd : NoDup (map collisionId sixteen_collisions)).
  { unfold sixteen_collisions. rewrite map_map.
    change (NoDup (map Z.of_nat (seq 0 16))).
    apply Finite.Injective_map_NoDup; [intros a b; apply Nat2Z.inj | apply seq_NoDup]. }
  split; [exact Hnd|]. split; [vm_compute; reflexivity|].
  split; [vm_compute; reflexivity|].
  exact (MixedEventPairing_anchor_records kPCMPCM example_task sixteen_collisions
           sixteen_collisions_photons sixteen_collisions_photons
           example_PCMCuts example_PCMCuts 0 Hnd).
Defined.

(* ================================================================= *)
(** ** The vertex boundary: same-event pairing against the mixing pool *)

Section BoundaryCollision.
Context {G : Type} `{Candidate G}.

(** The two collisions of a mixed-event record are rows of the filtered
    table. *)
Lemma MixedEventPairing_records_filtered (pairtype : PairType) (task : PhotonHBT G)
    (collisions : list Collision) (photons1 photons2 : list G)
    (cuts1 cuts2 : list (Cut G))
    (record : ((nat * Collision) * (nat * Collision)) * list (Fill G)) :
  In record (snd (process pairtype task collisions photons1 photons2 cuts1 cuts2)) ->
  In (fst (fst record)) (MyFilteredCollisions (asTable collisions))
  /\ In (snd (fst record)) (MyFilteredCollisions (asTable collisions)).
Proof.
  destruct record as [[c1 c2] fills]. intros Hrec. simpl.
  unfold process in Hrec; simpl in Hrec. unfold MixedEventPairing in Hrec.
  apply MixedEventPairing_loop_In in Hrec as [Hpair _].
  unfold selfCombinations in Hpair.
  apply block_strictly_upper_In in Hpair as [_ [bin [H1 H2]]];
    [|apply groupTable_sorted
     |apply groupTable_NoDup, ascending_NoDup, ascending_filter, ascending_asTable].
  apply groupTable_In in H1 as [H1 _]. apply groupTable_In in H2 as [H2 _].
  split; assumption.
Qed.

Lemma MyFilteredCollisions_In (collisions : Table Collision) (c : nat * Collision) :
  In c (MyFilteredCollisions collisions)
  <-> In c collisions
      /\ collisionFilter_common (snd c) = true /\ collisionFilter_subsys (snd c) = true.
Proof.
  unfold MyFilteredCollisions, Filtered. rewrite filter_In, andb_true_iff. reflexivity.
Qed.

(** What the gates of same-event pairing fill for a collision that they
    accept. *)
Lemma SameEventPairing_gates_accepted (pairtype : PairType) (c : Collision) :
  snd (SameEventPairing_gates (G:=G) pairtype c) = true ->
  fst (SameEventPairing_gates (G:=G) pairtype c)
  = [Fill1D (event_hist pairtype "hZvtx_before") (posZ c);
     Fill1D (event_hist pairtype "hCollisionCounter") 1;
     Fill1D (event_hist pairtype "hCollisionCounter") 2;
     Fill1D (event_hist pairtype "hCollisionCounter") 3;
     Fill1D (event_hist pairtype "hZvtx_after") (posZ c);
     Fill1D (event_hist pairtype "hCollisionCounter") 4].
Proof.
  unfold SameEventPairing_gates.
  destruct (_ && negb (isPHOSCPVreadout c)); [discriminate|].
  destruct (negb (sel8 c)); [discriminate|].
  destruct (Qlt_bool (inject_Z (numContrib c)) (1 # 2)); [discriminate|].
  destruct (Qlt_bool 10 (Qabs (posZ c))); [discriminate|].
  reflexivity.
Qed.

(** C10: take a collision of the table that passes the readout, selection
    and contributor gates.  On the boundary [|posZ| = 10], same-event pairing
    accepts it, its record holds the fills of all four stages and the pair
    fills of its candidates, while the collision is no row of the mixing
    pool and no mixed-event record has it as first or second collision; off
    the boundary the vertex gate of same-event pairing and the filter agree,
    and the collision is in the pool exactly when same-event pairing accepts
    it and it passes the candidate-count filter. *)
Theorem vertex_gates_disagree_on_boundary (pairtype : PairType) (task : PhotonHBT G)
    (collisions : list Collision) (photons1 photons2 : list G)
    (cuts1 cuts2 : list (Cut G)) (collision : nat * Collision) :
  In collision (asTable collisions) ->
  sel8 (snd collision) = true -> (0 < numContrib (snd collision))%Z ->
  readout_gate pairtype (snd collision) = true ->
  (Qabs (posZ (snd collision)) == 10 ->
     snd (SameEventPairing_gates (G:=G) pairtype (snd collision)) = true
     /\ collisionFilter_common (snd collision) = false
     /\ In (collision,
            ([Fill1D (event_hist pairtype "hZvtx_before") (posZ (snd collision));
              Fill1D (event_hist pairtype "hCollisionCounter") 1;
              Fill1D (event_hist pairtype "hCollisionCounter") 2;
              Fill1D (event_hist pairtype "hCollisionCounter") 3;
              Fill1D (event_hist pairtype "hZvtx_after") (posZ (snd collision));
              Fill1D (event_hist pairtype "hCollisionCounter") 4]
             ++ SameEventPairing_pairs pairtype
                  (sliceBy photonCollisionId (collisionId (snd collision))
                     (asTable photons1))
                  (sliceBy photonCollisionId (collisionId (snd collision))
                     (asTable photons2))
                  cuts1 cuts2)%list)
           (fst (process pairtype task collisions photons1 photons2 cuts1 cuts2))
     /\ ~ In collision (MyFilteredCollisions (asTable collisions))
     /\ Forall (fun record =>
                  fst (fst record) <> collision /\ snd (fst record) <> collision)
          (snd (process pairtype task collisions photons1 photons2 cuts1 cuts2)))
  /\ (~ Qabs (posZ (snd collision)) == 10 ->
      snd (SameEventPairing_gates (G:=G) pairtype (snd collision))
      = collisionFilter_common (snd collision)
      /\ (In collision (MyFilteredCollisions (asTable collisions))
          <-> snd (SameEventPairing_gates (G:=G) pairtype (snd collision)) = true
              /\ collisionFilter_subsys (snd collision) = true)).
Proof.
  intros Hrow Hsel Hn Hro.
  destruct (vertex_gates_on_boundary (G:=G) pairtype (snd collision) Hsel Hn Hro)
    as [Hon Hoff].
  split.
  - intros Hz. destruct (Hon Hz) as [Hacc Hfilter].
    assert (Hpool : ~ In collision (MyFilteredCollisions (asTable collisions))).
    { intros Hin. apply MyFilteredCollisions_In in Hin as [_ [Hc _]]. congruence. }
    split; [exact Hacc|]. split; [exact Hfilter|]. split; [|split; [exact Hpool|]].
    + unfold process; simpl. unfold SameEventPairing.
      apply in_map_iff. exists collision. split; [|exact Hrow].
      f_equal. unfold SameEventPairing_body.
      pose proof (SameEventPairing_gates_accepted pairtype (snd collision) Hacc) as Hfills.
      destruct (SameEventPairing_gates pairtype (snd collision)) as [fills accepted].
      simpl in Hacc, Hfills. subst accepted fills. reflexivity.
    + apply Forall_forall. intros record Hrec.
      apply MixedEventPairing_records_filtered in Hrec as [H1 H2].
      split; intros Heq; apply Hpool; rewrite <- Heq; assumption.
  - intros Hz. pose proof (Hoff Hz) as Hagree. split; [exact Hagree|].
    rewrite MyFilteredCollisions_In, Hagree. tauto.
Qed.

End BoundaryCollision.

(** C10 at the pair type PCMPCM and a collision with [posZ = 10] that is
    followed by two collisions inside the vertex range: same-event pairing
    fills the pair of its two candidates under each of the three cuts, and
    event mixing pairs only the two other collisions. *)
Lemma vertex_gates_disagree_on_boundary_witness :
  In (0%nat, collision_on_boundary) (asTable boundary_collisions)
  /\ sel8 collision_on_boundary = true
  /\ (0 < numContrib collision_on_boundary)%Z
  /\ readout_gate kPCMPCM collision_on_boundary = true
  /\ Qabs (posZ collision_on_boundary) == 10
  /\ snd (SameEventPairing_gates (G:=PhotonCandidate) kPCMPCM collision_on_boundary) = true
  /\ collisionFilter_common collision_on_boundary = false
  /\ ~ In (0%nat, collision_on_boundary)
          (MyFilteredCollisions (asTable boundary_collisions))
  /\ Forall (fun record =>
               fst (fst record) <> (0%nat, collision_on_boundary)
               /\ snd (fst record) <> (0%nat, collision_on_boundary))
       (snd (processPCMPCM example_task boundary_collisions six_candidates))
  /\ map (fun record => fill_index_pairs (snd record))
       (fst (processPCMPCM example_task boundary_collisions six_candidates))
     = [[(0, 1); (0, 1); (0, 1)]; [(2, 3); (2, 3); (2, 3)];
        [(4, 5); (4, 5); (4, 5)]]%nat
  /\ map (fun record => (fst (fst (fst record)), fst (snd (fst record))))
       (snd (processPCMPCM example_task boundary_collisions six_candidates))
     = [(1, 2)]%nat.
Proof.
  assert (Hrow : In (0%nat, collision_on_boundary) (asTable boundary_collisions))
    by (left; reflexivity).
  assert (Hsel : sel8 collision_on_boundary = true) by reflexivity.
  assert (Hn : (0 < numContrib collision_on_boundary)%Z) by (simpl; lia).
  assert (Hro : readout_gate kPCMPCM collision_on_boundary = true) by reflexivity.
  assert (Hz : Qabs (posZ collision_on_boundary) == 10) by reflexivity.
  destruct (proj1 (vertex_gates_disagree_on_boundary kPCMPCM example_task
                     boundary_collisions six_candidates six_candidates
                     example_PCMCuts example_PCMCuts (0%nat, collision_on_boundary)
                     Hrow Hsel Hn Hro) Hz)
    as [Hacc [Hfilter [_ [Hpool Hmixed]]]].
  split; [exact Hrow|]. split; [exact Hsel|]. split; [exact Hn|].
  split; [exact Hro|]. split; [exact Hz|]. split; [exact Hacc|].
  split; [exact Hfilter|]. split; [exact Hpool|]. split; [exact Hmixed|].
  split; vm_compute; reflexivity.
Defined.

(* ================================================================= *)
(** ** Where the kinematic block is defined, and what is filled where it is not *)

Section KinematicsDefined.
Import Kinematics.
Local Open Scope R_scope.








End KinematicsDefined.

Section UndefinedValuesAreFilled.
Context {G : Type} `{Candidate G}.
Local Open Scope nat_scope.


End UndefinedValuesAreFilled.


(* ================================================================= *)
(** ** Every pair once: the candidates of a filled pair *)

Section FilledOnce.
Context {G : Type} `{Candidate G}.
Local Open Scope nat_scope.

Lemma times_filled_app (i j : nat) (a b : list (Fill G)) :
  times_filled i j (a ++ b)%list = times_filled i j a + times_filled i j b.
Proof.
  unfold times_filled, fill_index_pairs.
  rewrite flat_map_app, filter_app, length_app. reflexivity.
Qed.

(** The gates fill no pair. *)
Lemma times_filled_gates (pairtype : PairType) (c : Collision) (i j : nat) :
  times_filled i j (fst (SameEventPairing_gates (G:=G) pairtype c)) = 0.
Proof.
  unfold SameEventPairing_gates.
  destruct (_ && negb (isPHOSCPVreadout c)); [reflexivity|].
  destruct (negb (sel8 c)); [reflexivity|].
  destruct (Qlt_bool (inject_Z (numContrib c)) (1 # 2)); [reflexivity|].
  destruct (Qlt_bool 10 (Qabs (posZ c))); reflexivity.
Qed.

(** The fills of the pair loop under one cut, counted. *)
Lemma times_filled_one_cut (pairtype : PairType) (cut : Cut G)
    (pairs : list ((nat * G) * (nat * G))) (i j : nat) :
  times_filled i j
    (flat_map (fun g12 : (nat * G) * (nat * G) =>
       let '(g1, g2) := g12 in
       if negb (IsSelectedPair pairtype g1 g2 cut cut) then []
       else [fill_pair pairtype "hs_q_same" cut cut g1 g2]) pairs)
  = length (filter (fun g12 =>
              Nat.eqb (fst (fst g12)) i && Nat.eqb (fst (snd g12)) j
              && IsSelectedPair pairtype (fst g12) (snd g12) cut cut) pairs).
Proof.
  induction pairs as [|[g1 g2] r IH]; [reflexivity|].
  cbn [flat_map]. rewrite times_filled_app, IH. cbn [filter fst snd].
  destruct (IsSelectedPair pairtype g1 g2 cut cut); cbn [negb].
  - unfold times_filled at 1. cbn.
    destruct (Nat.eqb (fst g1) i && Nat.eqb (fst g2) j); reflexivity.
  - rewrite andb_false_r. reflexivity.
Qed.

Lemma filter_index_absent {A B : Type} (s : (nat * A) * (nat * B) -> bool)
    (pairs : list ((nat * A) * (nat * B))) (i j : nat) :
  ~ In (i, j) (index_pairs pairs) ->
  length (filter (fun p => Nat.eqb (fst (fst p)) i && Nat.eqb (fst (snd p)) j && s p)
            pairs) = 0.
Proof.
  induction pairs as [|x r IH]; intros Hnin; [reflexivity|].
  cbn [filter]. simpl in Hnin.
  destruct (Nat.eqb_spec (fst (fst x)) i) as [Hi | Hi];
    destruct (Nat.eqb_spec (fst (snd x)) j) as [Hj | Hj]; cbn [andb];
    try (apply IH; tauto).
  exfalso. apply Hnin. left. subst. reflexivity.
Qed.

Lemma filter_index_unique {A B : Type} (s : (nat * A) * (nat * B) -> bool)
    (pairs : list ((nat * A) * (nat * B))) (g12 : (nat * A) * (nat * B)) :
  NoDup (index_pairs pairs) -> In g12 pairs ->
  length (filter (fun p => Nat.eqb (fst (fst p)) (fst (fst g12))
                           && Nat.eqb (fst (snd p)) (fst (snd g12)) && s p)
            pairs)
  = if s g12 then 1 else 0.
Proof.
  induction pairs as [|x r IH]; intros Hnd Hin; [destruct Hin|].
  simpl in Hnd. apply NoDup_cons_iff in Hnd as [Hx Hr].
  cbn [filter]. destruct Hin as [-> | Hin].
  - rewrite !Nat.eqb_refl. cbn [andb].
    rewrite <- (filter_index_absent s r _ _ Hx).
    destruct (s g12); reflexivity.
  - assert (Hneq : Nat.eqb (fst (fst x)) (fst (fst g12))
                   && Nat.eqb (fst (snd x)) (fst (snd g12)) = false).
    { apply andb_false_iff.
      destruct (Nat.eqb_spec (fst (fst x)) (fst (fst g12))) as [Hi | Hi];
        [|left; reflexivity].
      destruct (Nat.eqb_spec (fst (snd x)) (fst (snd g12))) as [Hj | Hj];
        [|right; reflexivity].
      exfalso. apply Hx. rewrite Hi, Hj.
      apply (in_map (fun p => (fst (fst p), fst (snd p)))) in Hin. exact Hin. }
    rewrite Hneq. cbn [andb]. apply IH; assumption.
Qed.

(** The same-subsystem branch fills an enumerated pair once for every cut
    that selects it, and no other pair. *)
Lemma times_filled_same_subsystem (pairtype : PairType) (t : Table G)
    (cuts1 cuts2 : list (Cut G)) (g1 g2 : nat * G) :
  same_subsystem pairtype = true -> ascending t ->
  In (g1, g2) (CombinationsStrictlyUpperIndexPolicy t t) ->
  times_filled (fst g1) (fst g2) (SameEventPairing_pairs pairtype t t cuts1 cuts2)
  = length (filter (fun cut => IsSelectedPair pairtype g1 g2 cut cut) cuts1).
Proof.
  intros Hsym Hs Hin. unfold SameEventPairing_pairs. rewrite Hsym.
  induction cuts1 as [|cut r IH]; [reflexivity|].
  cbn [flat_map filter]. rewrite times_filled_app, IH, times_filled_one_cut.
  pose proof (filter_index_unique
                (fun g12 => IsSelectedPair pairtype (fst g12) (snd g12) cut cut)
                _ (g1, g2) (index_pairs_NoDup t Hs) Hin) as Hone.
  cbn [fst snd] in Hone. rewrite Hone.
  destruct (IsSelectedPair pairtype g1 g2 cut cut); reflexivity.
Qed.

Lemma times_filled_not_enumerated (pairtype : PairType) (t : Table G)
    (cuts1 cuts2 : list (Cut G)) (i j : nat) :
  same_subsystem pairtype = true ->
  ~ In (i, j) (index_pairs (CombinationsStrictlyUpperIndexPolicy t t)) ->
  times_filled i j (SameEventPairing_pairs pairtype t t cuts1 cuts2) = 0.
Proof.
  intros Hsym Hnin. unfold SameEventPairing_pairs. rewrite Hsym.
  induction cuts1 as [|cut r IH]; [reflexivity|].
  cbn [flat_map]. rewrite times_filled_app, IH, times_filled_one_cut.
  rewrite (filter_index_absent
             (fun g12 => IsSelectedPair pairtype (fst g12) (snd g12) cut cut)
             _ _ _ Hnin).
  reflexivity.
Qed.

(** Two rows of a table with one global index are one row. *)
Lemma asTable_index_inj {A : Type} (rows : list A) (a b : nat * A) :
  In a (asTable rows) -> In b (asTable rows) -> fst a = fst b -> a = b.
Proof.
  intros Ha Hb Hab. apply asTable_nth_error in Ha, Hb. rewrite Hab in Ha.
  destruct a, b. simpl in *. subst. congruence.
Qed.

(** How often the record of a collision fills a pair of rows of the candidate
    table. *)
Lemma times_filled_body (pairtype : PairType) (photons : list G)
    (cuts1 cuts2 : list (Cut G)) (collision : nat * Collision) (g1 g2 : nat * G) :
  same_subsystem pairtype = true ->
  In g1 (asTable photons) -> In g2 (asTable photons) ->
  times_filled (fst g1) (fst g2)
    (SameEventPairing_body pairtype (asTable photons) (asTable photons)
       cuts1 cuts2 collision)
  = if snd (SameEventPairing_gates (G:=G) pairtype (snd collision))
       && (photonCollisionId (snd g1) =? collisionId (snd collision))%Z
       && (photonCollisionId (snd g2) =? collisionId (snd collision))%Z
       && (fst g1 <? fst g2)
    then length (filter (fun cut => IsSelectedPair pairtype g1 g2 cut cut) cuts1)
    else 0.
Proof.
  intros Hsym H1 H2. unfold SameEventPairing_body.
  pose proof (times_filled_gates pairtype (snd collision) (fst g1) (fst g2)) as Hgate.
  destruct (SameEventPairing_gates pairtype (snd collision)) as [fills accepted].
  simpl in Hgate. cbn [snd].
  destruct accepted; [|exact Hgate].
  rewrite times_filled_app, Hgate. cbn [andb Nat.add].
  set (id := collisionId (snd collision)).
  set (t := sliceBy photonCollisionId id (asTable photons)).
  assert (Hs : ascending t) by (apply ascending_filter, ascending_asTable).
  destruct ((photonCollisionId (snd g1) =? id)%Z
            && (photonCollisionId (snd g2) =? id)%Z && (fst g1 <? fst g2)) eqn:Hb.
  - apply andb_true_iff in Hb as [Hb Hlt]. apply andb_true_iff in Hb as [Hid1 Hid2].
    apply Z.eqb_eq in Hid1, Hid2. apply Nat.ltb_lt in Hlt.
    apply times_filled_same_subsystem; [exact Hsym | exact Hs|].
    apply CombinationsStrictlyUpperIndexPolicy_In; [exact Hs|].
    unfold t. rewrite !sliceBy_In. auto.
  - apply times_filled_not_enumerated; [exact Hsym|].
    intros Hin. apply (index_pairs_In t _ _ Hs) in Hin as [Hi [Hj Hlt]].
    unfold indices in Hi, Hj.
    apply in_map_iff in Hi as [a [Ha Hina]]. apply in_map_iff in Hj as [b [Hb' Hinb]].
    apply sliceBy_In in Hina as [Hina Hka]. apply sliceBy_In in Hinb as [Hinb Hkb].
    rewrite (asTable_index_inj photons a g1 Hina H1 Ha) in Hka.
    rewrite (asTable_index_inj photons b g2 Hinb H2 Hb') in Hkb.
    apply Z.eqb_eq in Hka, Hkb. apply Nat.ltb_lt in Hlt.
    rewrite Hka, Hkb, Hlt in Hb. discriminate.
Qed.

(** C4 (amended): for a pair type of one subsystem, the two candidates of
    every filled same-event pair have increasing, hence distinct, global
    indices; the strictly upper policy enumerates every unordered pair of
    candidates of an event exactly once, and the record of a collision fills
    a pair of candidates once for every cut that selects it when the
    collision is accepted, both candidates belong to it and the first has the
    smaller index, and not at all otherwise; the two collisions of every
    filled mixed-event pair are distinct rows, the first of smaller index,
    each candidate belongs to its own collision, and when the collisions of
    the table have distinct identifiers the two candidates come from events
    of distinct identifiers. *)
Theorem paired_candidates_are_distinct
    (pairtype : PairType) (task : PhotonHBT G) (collisions : list Collision)
    (photons1 photons2 : list G) (cuts1 cuts2 : list (Cut G)) :
  (same_subsystem pairtype = true ->
   forall rec path g1 g2 v,
     In rec (fst (process pairtype task collisions photons1 photons1 cuts1 cuts2)) ->
     In (FillND path g1 g2 v) (snd rec) ->
     fst g1 < fst g2)
  /\ (forall id : Z,
        let photons_coll := sliceBy photonCollisionId id (asTable photons1) in
        NoDup (index_pairs (CombinationsStrictlyUpperIndexPolicy photons_coll photons_coll))
        /\ forall i j,
             In (i, j) (index_pairs
                          (CombinationsStrictlyUpperIndexPolicy photons_coll photons_coll))
             <-> In i (indices photons_coll) /\ In j (indices photons_coll) /\ i < j)
  /\ (same_subsystem pairtype = true ->
      forall (id : Z) (cut : Cut G),
        let photons_coll := sliceBy photonCollisionId id (asTable photons1) in
        NoDup (fill_index_pairs
                 (SameEventPairing_pairs pairtype photons_coll photons_coll [cut] cuts2)))
  /\ (same_subsystem pairtype = true ->
      forall rec g1 g2,
        In rec (fst (process pairtype task collisions photons1 photons1 cuts1 cuts2)) ->
        In g1 (asTable photons1) -> In g2 (asTable photons1) ->
        times_filled (fst g1) (fst g2) (snd rec)
        = if snd (SameEventPairing_gates (G:=G) pairtype (snd (fst rec)))
             && (photonCollisionId (snd g1) =? collisionId (snd (fst rec)))%Z
             && (photonCollisionId (snd g2) =? collisionId (snd (fst rec)))%Z
             && (fst g1 <? fst g2)
          then length (filter (fun cut => IsSelectedPair pairtype g1 g2 cut cut) cuts1)
          else 0)
  /\ (forall collision1 collision2 fills path g1 g2 v,
        In ((collision1, collision2), fills)
           (snd (process pairtype task collisions photons1 photons2 cuts1 cuts2)) ->
        In (FillND path g1 g2 v) fills ->
        fst collision1 < fst collision2
        /\ photonCollisionId (snd g1) = collisionId (snd collision1)
        /\ photonCollisionId (snd g2) = collisionId (snd collision2)
        /\ (NoDup (map collisionId collisions) ->
            photonCollisionId (snd g1) <> photonCollisionId (snd g2))).
Proof.
  split; [|split; [|split; [|split]]].
  - intros Hsym rec path g1 g2 v Hrec Hfill. unfold process in Hrec; simpl in Hrec.
    unfold SameEventPairing in Hrec. apply in_map_iff in Hrec as [collision [<- _]].
    simpl in Hfill. unfold SameEventPairing_body in Hfill.
    destruct (SameEventPairing_gates pairtype (snd collision)) as [fills accepted] eqn:Hg.
    assert (Hgate : ~ In (FillND path g1 g2 v) fills).
    { pose proof (SameEventPairing_gates_Fill1D pairtype (snd collision) path g1 g2 v) as Hn.
      rewrite Hg in Hn. exact Hn. }
    destruct accepted; [|contradiction].
    apply in_app_iff in Hfill as [Hfill | Hfill]; [contradiction|].
    apply SameEventPairing_pairs_same in Hfill as [Hin _]; [|exact Hsym].
    apply CombinationsStrictlyUpperIndexPolicy_In in Hin; [apply Hin|].
    apply ascending_filter, ascending_asTable.
  - intros id photons_coll.
    assert (Hs : ascending photons_coll)
      by (apply ascending_filter, ascending_asTable).
    split; [apply index_pairs_NoDup; exact Hs|].
    intros i j. apply index_pairs_In. exact Hs.
  - intros Hsym id cut photons_coll.
    rewrite SameEventPairing_pairs_one_cut by exact Hsym.
    apply NoDup_map_filter, index_pairs_NoDup.
    apply ascending_filter, ascending_asTable.
  - intros Hsym rec g1 g2 Hrec H1 H2. unfold process in Hrec; simpl in Hrec.
    unfold SameEventPairing in Hrec. apply in_map_iff in Hrec as [collision [<- _]].
    cbn [fst snd]. apply times_filled_body; assumption.
  - intros c1 c2 fills path g1 g2 v Hrec Hfill.
    unfold process in Hrec; simpl in Hrec. unfold MixedEventPairing in Hrec.
    apply MixedEventPairing_loop_In in Hrec as [Hpair Hfills]. simpl in Hfills.
    apply selfCombinations_In in Hpair as [H1 [H2 [Hlt _]]];
      [|apply ascending_NoDup, ascending_filter, ascending_asTable].
    unfold MyFilteredCollisions, Filtered in H1, H2.
    apply filter_In in H1 as [H1 _]. apply filter_In in H2 as [H2 _].
    subst fills. apply MixedEventPairing_pairs_In in Hfill as [Hg1 Hg2].
    apply sliceBy_In in Hg1 as [_ Hg1]. apply sliceBy_In in Hg2 as [_ Hg2].
    repeat split; try assumption.
    intros Hnd. rewrite Hg1, Hg2.
    apply (NoDup_collisionId_rows collisions); try assumption. lia.
Qed.

End FilledOnce.

(** C4, as stated, fails: when two rows of the collision table carry one
    identifier, event mixing pairs the two rows and fills pairs whose two
    candidates come from the event of that one identifier, among them every
    candidate with itself; and same-event pairing fills the pair of the two
    candidates once for each cut in the record of either row. *)
Lemma mixed_pair_of_one_event :
  map collisionId repeated_id_collisions = [7; 7]%Z
  /\ map (fun r => (fst (fst (fst r)), fst (snd (fst r))))
       (snd (processPCMPCM example_task repeated_id_collisions repeated_id_photons))
     = [(0, 1)]%nat
  /\ map (fun r => fill_index_pairs (snd r))
       (snd (processPCMPCM example_task repeated_id_collisions repeated_id_photons))
     = [[(0, 0); (0, 1); (1, 0); (1, 1);
         (0, 0); (0, 1); (1, 0); (1, 1);
         (0, 0); (0, 1); (1, 0); (1, 1)]]%nat
  /\ map (fun r => fill_event_ids (snd r))
       (snd (processPCMPCM example_task repeated_id_collisions repeated_id_photons))
     = [repeat (7, 7)%Z 12]
  /\ map (fun r => times_filled 0 1 (snd r))
       (fst (processPCMPCM example_task repeated_id_collisions repeated_id_photons))
     = [3; 3]%nat.
Proof.
  split; [reflexivity|]. split; [vm_compute; reflexivity|].
  split; [vm_compute; reflexivity|]. split; vm_compute; reflexivity.
Qed.

(** The amended C4 at the pair type PCMPCM, two collisions of distinct
    identifiers and two candidates in each: the two candidates of the first
    collision are filled once for each of the three cuts. *)
Lemma paired_candidates_are_distinct_witness :
  same_subsystem kPCMPCM = true
  /\ NoDup (map collisionId two_collisions)
  /\ (forall rec path g1 g2 v,
        In rec (fst (process kPCMPCM example_task two_collisions
                       four_candidates four_candidates example_PCMCuts example_PCMCuts)) ->
        In (FillND path g1 g2 v) (snd rec) ->
        (fst g1 < fst g2)%nat)
  /\ map (fun rec => (times_filled 0 1 (snd rec), times_filled 1 0 (snd rec),
                      times_filled 0 2 (snd rec)))
       (fst (process kPCMPCM example_task two_collisions
               four_candidates four_candidates example_PCMCuts example_PCMCuts))
     = [(3, 0, 0); (0, 0, 0)]%nat
  /\ (forall collision1 collision2 fills path g1 g2 v,
        In ((collision1, collision2), fills)
           (snd (process kPCMPCM example_task two_collisions
                   four_candidates four_candidates example_PCMCuts example_PCMCuts)) ->
        In (FillND path g1 g2 v) fills ->
        photonCollisionId (snd g1) <> photonCollisionId (snd g2)).
Proof.
  assert (Hsym : same_subsystem kPCMPCM = true) by reflexivity.
  assert (Hnd : NoDup (map collisionId two_collisions)).
  { simpl. constructor; [intros [Heq | []]; discriminate|].
    constructor; [intros [] | constructor]. }
  destruct (paired_candidates_are_distinct kPCMPCM example_task two_collisions
              four_candidates four_candidates example_PCMCuts example_PCMCuts)
    as [Hsame [_ [_ [_ Hmixed]]]].
  split; [exact Hsym|]. split; [exact Hnd|]. split; [exact (Hsame Hsym)|].
  split; [vm_compute; reflexivity|].
  intros collision1 collision2 fills path g1 g2 v Hrec Hfill.
  exact (proj2 (proj2 (proj2 (Hmixed _ _ _ _ _ _ _ Hrec Hfill))) Hnd).
Defined.
